(** * serverless-deployment-bucket: the plugin of [lib/index.js]

    A shallow embedding of the plugin (the configuration lookup helper [get],
    the constructor that decides whether the hook is registered, the S3
    reader and mutator methods, and the reconciliation entry point
    [applyDeploymentBucket]) together with the properties of its
    specification.

    Every [await] of the source is sequential, so an asynchronous method
    is modelled as a function from the state of the provider before the
    call to its outcome (resolved with a value or rejected with an error),
    the state of the provider after it, and the trace of what it did: the
    calls to the provider with their outcomes, the lines logged, the texts
    printed on the console.  The provider and the built-ins of the runtime
    are parameters of the model. *)

From Stdlib Require Import String Ascii List ZArith Bool Lia DecimalString.
Import ListNotations.
Open Scope string_scope.

Set Implicit Arguments.
Set Warnings "-register-all".

(* ===================================================================== *)
(** ** JavaScript values *)
(* ===================================================================== *)

(** The data the plugin handles is a configuration tree read from YAML and
    the objects it builds for the provider.  Numbers are the integer-valued
    ones and NaN.  An array carries, besides its elements, the named
    properties assigned to it.  A function is what reading the name of a
    built-in method gives; only its own properties matter here. *)
Inductive value : Type :=
| VUndefined
| VNull
| VBool (b : bool)
| VNum (z : Z)
| VNaN
| VStr (s : string)
| VObj (props : list (string * value))
| VArr (elems : list value) (props : list (string * value))
| VFunction (props : list (string * value)).

(** The built-in prototype a value inherits its other members from. *)
Inductive prototype : Type :=
| BooleanPrototype
| NumberPrototype
| StringPrototype
| ObjectPrototype
| ArrayPrototype
| FunctionPrototype.

(** A thrown value.  The plugin only ever reads [message] from it. *)
Inductive exn : Type :=
| Error (message : string)
| TypeError (message : string).

Definition message (e : exn) : string :=
  match e with
  | Error m => m
  | TypeError m => m
  end.

(** Outcome of an evaluation that may throw. *)
Definition result (A : Type) : Type := (exn + A)%type.

Definition ok {A} (a : A) : result A := inr a.
Definition throw {A} (e : exn) : result A := inl e.

Definition rbind {A B} (r : result A) (k : A -> result B) : result B :=
  match r with
  | inl e => inl e
  | inr a => k a
  end.

Declare Scope js_scope.
Delimit Scope js_scope with js.
Notation "'let?' x ':=' r 'in' k" := (rbind r (fun x => k))
  (at level 10, x name, r at level 100, k at level 200) : js_scope.
Open Scope js_scope.

(** Built-ins of the JavaScript runtime and of the two libraries the file
    requires ([semver], [chalk]).  They are not code of the plugin, so the
    plugin is modelled over any implementation of them. *)
Class Runtime : Type := {
  (** the member a value finds on its prototype chain under a name it does
      not own, [undefined] when there is none *)
  inherited : prototype -> string -> value;
  (** string conversion of a value interpolated in a template literal *)
  ToString : value -> string;
  (** the number a string denotes when it is compared with [==]: [None] when
      it denotes no integer (NaN or a fraction, which equal neither 0 nor 1) *)
  StringToNumber : string -> option Z;
  (** [JSON.stringify] *)
  JSON_stringify : value -> value;
  (** [semver.satisfies(version, range)] *)
  semver_satisfies : value -> string -> bool;
  (** [chalk.red] *)
  chalk_red : string -> string
}.

(** ToBoolean. *)
Definition truthy (v : value) : bool :=
  match v with
  | VUndefined | VNull | VNaN => false
  | VBool b => b
  | VNum z => negb (z =? 0)%Z
  | VStr s => negb (s =? "")
  | VObj _ | VArr _ _ | VFunction _ => true
  end.

(** [x === y] against a primitive on the right: the tests of the source
    compare with [undefined], [false] and the string ['package']. *)
Definition strict_eq_prim (x y : value) : bool :=
  match x, y with
  | VUndefined, VUndefined => true
  | VNull, VNull => true
  | VBool a, VBool b => Bool.eqb a b
  | VNum a, VNum b => (a =? b)%Z
  | VStr a, VStr b => (a =? b)
  | _, _ => false
  end.

(* --------------------------------------------------------------------- *)
(** *** Property access *)

Fixpoint own (k : string) (props : list (string * value)) : option value :=
  match props with
  | [] => None
  | (k', v) :: rest => if k' =? k then Some v else own k rest
  end.

(** A canonical array index: the decimal numeral of a natural number,
    without sign or leading zeros. *)
Definition array_index (k : string) : option nat :=
  match NilZero.uint_of_string k with
  | Some u =>
      let n := Nat.of_uint u in
      if NilZero.string_of_uint (Nat.to_uint n) =? k then Some n else None
  | None => None
  end.

Section Lookup.
Context {RT : Runtime}.

(** The own properties of a string: its characters and its length. *)
Definition string_own (s : string) (k : string) : option value :=
  match array_index k with
  | Some n => option_map (fun c => VStr (String c "")) (String.get n s)
  | None => if k =? "length" then Some (VNum (Z.of_nat (String.length s))) else None
  end.

(** The own properties of an array: its elements, its length and the named
    properties assigned to it. *)
Definition array_own (elems : list value) (props : list (string * value)) (k : string)
  : option value :=
  match array_index k with
  | Some n => nth_error elems n
  | None => if k =? "length" then Some (VNum (Z.of_nat (length elems))) else own k props
  end.

Definition own_or_inherited (p : prototype) (k : string) (o : option value) : value :=
  match o with
  | Some v => v
  | None => inherited p k
  end.

(** [obj[k]]: reading a property.  Reading from [undefined] or [null]
    throws; otherwise the own property is read, or else the inherited
    one. *)
Definition get_prop (obj : value) (k : string) : result value :=
  match obj with
  | VUndefined | VNull =>
      throw (TypeError ("Cannot read properties of undefined or null (reading '" ++ k ++ "')"))
  | VBool _ => ok (inherited BooleanPrototype k)
  | VNum _ | VNaN => ok (inherited NumberPrototype k)
  | VStr s => ok (own_or_inherited StringPrototype k (string_own s k))
  | VObj props => ok (own_or_inherited ObjectPrototype k (own k props))
  | VArr elems props => ok (own_or_inherited ArrayPrototype k (array_own elems props k))
  | VFunction props => ok (own_or_inherited FunctionPrototype k (own k props))
  end.

End Lookup.

Fixpoint put_own (k : string) (v : value) (props : list (string * value))
  : list (string * value) :=
  match props with
  | [] => [(k, v)]
  | (k', v') :: rest =>
      if k' =? k then (k, v) :: rest else (k', v') :: put_own k v rest
  end.

Fixpoint remove_own (k : string) (props : list (string * value))
  : list (string * value) :=
  match props with
  | [] => []
  | (k', v') :: rest =>
      if k' =? k then remove_own k rest else (k', v') :: remove_own k rest
  end.

(** [obj[k] = v] for a property name [k] that is neither an array index nor
    ["length"] (the source assigns [versioning], [accelerate] and [policy]).
    The file is in strict mode, so assigning to a primitive throws. *)
Definition set_prop (obj : value) (k : string) (v : value) : result value :=
  match obj with
  | VObj props => ok (VObj (put_own k v props))
  | VArr elems props => ok (VArr elems (put_own k v props))
  | VFunction props => ok (VFunction (put_own k v props))
  | VUndefined | VNull =>
      throw (TypeError ("Cannot set properties of undefined or null (setting '" ++ k ++ "')"))
  | VBool _ | VNum _ | VNaN | VStr _ =>
      throw (TypeError ("Cannot create property '" ++ k ++ "' on a primitive"))
  end.

(* --------------------------------------------------------------------- *)
(** *** [String.prototype.split('.')] and [String.prototype.includes] *)

Definition dot : ascii := "."%char.

(** [path.split('.')]: the pieces between the dots, empty pieces kept. *)
Fixpoint split_dot (path : string) : list string :=
  match path with
  | EmptyString => [""]
  | String c rest =>
      if Ascii.eqb c dot then "" :: split_dot rest
      else
        match split_dot rest with
        | piece :: pieces => String c piece :: pieces
        | [] => [String c ""]
        end
  end.

Fixpoint contains (needle hay : string) : bool :=
  String.prefix needle hay
  || match hay with
     | EmptyString => false
     | String _ rest => contains needle rest
     end.

(** [x.includes('...')] with a string argument: membership for an array,
    substring search for a string; any other receiver has no such method. *)
Definition includes (x : value) (s : string) : result bool :=
  match x with
  | VArr elems _ => ok (existsb (fun e => strict_eq_prim e (VStr s)) elems)
  | VStr hay => ok (contains s hay)
  | VUndefined | VNull =>
      throw (TypeError "Cannot read properties of undefined or null (reading 'includes')")
  | VBool _ | VNum _ | VNaN | VObj _ | VFunction _ =>
      throw (TypeError "includes is not a function")
  end.

(* ===================================================================== *)
(** ** The lookup helper [get] (index.js, lines 6-8) *)
(* ===================================================================== *)

Section Get.
Context {RT : Runtime}.

(** The callback of [every]: [step => !(step && !(obj = obj[step]))].  It
    assigns the captured variable [obj]; the pair returned is the value of
    the callback and the new [obj]. *)
Definition get_callback (obj : value) (step : string) : result (bool * value) :=
  if truthy (VStr step) then
    let? next := get_prop obj step in
    ok (negb (negb (truthy next)), next)
  else ok (negb (truthy (VStr step)), obj).

(** [steps.every(callback)]: stops at the first step whose callback is
    false. *)
Fixpoint every (obj : value) (steps : list string) : result (bool * value) :=
  match steps with
  | [] => ok (true, obj)
  | step :: rest =>
      let? r := get_callback obj step in
      if fst r then every (snd r) rest else ok (false, snd r)
  end.

(** [Array.prototype.filter(Boolean)] on strings. *)
Definition filter_Boolean (l : list string) : list string :=
  filter (fun s => truthy (VStr s)) l.

Definition path_steps (path : string) : list string :=
  filter_Boolean (split_dot path).

(** [const get = (obj, path, defaultValue) => ...] *)
Definition get (obj : value) (path : string) (defaultValue : value) : result value :=
  let? r := every obj (path_steps path) in
  if fst r then ok (snd r) else ok defaultValue.

(** The value reached from [obj] along the steps of a path. *)
Fixpoint follow (obj : value) (steps : list string) : result value :=
  match steps with
  | [] => ok obj
  | step :: rest =>
      let? next := get_prop obj step in
      follow next rest
  end.

End Get.

(* ===================================================================== *)
(** ** The host: runtime built-ins and the AWS provider *)
(* ===================================================================== *)

(** What the plugin reads of a provider response: the [Status] member of a
    versioning or acceleration configuration, a string when S3 returns one
    and absent for a bucket whose facet was never configured. *)
Record response : Type := { Status : option string }.

(** The AWS provider of the host over a type [W] of provider states:
    [this.provider.request(service, operation, params)] and the poll
    [new this.provider.sdk['S3'](this.provider.getCredentials())
       .waitFor(state, params).promise()].
    Either resolves or rejects, and moves the provider to a new state. *)
Class Provider (W : Type) : Type := {
  request : string -> string -> value -> W -> result response * W;
  sdk_waitFor : string -> value -> W -> result unit * W
}.

(** One call made to the provider, with how it ended. *)
Inductive event : Type :=
| Request (service operation : string) (params : value) (outcome : result response)
| WaitFor (state : string) (params : value) (outcome : result unit).

(** What a method does that can be seen from outside, in order: calls to
    the provider, lines given to [this.serverless.cli.log] and texts given
    to [console.error]. *)
Inductive effect : Type :=
| Call (ev : event)
| Log (line : string)
| ConsoleError (text : string).

(* --------------------------------------------------------------------- *)
(** *** Asynchronous computations *)

(** An [async] method: from the provider state to its outcome (resolved or
    rejected), the provider state afterwards and the effects performed.
    Effects performed before a rejection remain. *)
Definition M (W A : Type) : Type := W -> result A * W * list effect.

Section Monad.
Context {W : Type}.

Definition ret {A} (a : A) : M W A := fun w => (inr a, w, []).

Definition bind {A B} (m : M W A) (k : A -> M W B) : M W B :=
  fun w =>
    match m w with
    | (inl e, w1, t1) => (inl e, w1, t1)
    | (inr a, w1, t1) =>
        match k a w1 with
        | (r, w2, t2) => (r, w2, (t1 ++ t2)%list)
        end
    end.

(** [try { body } catch (e) { handler }] *)
Definition try_catch {A} (body : M W A) (handler : exn -> M W A) : M W A :=
  fun w =>
    match body w with
    | (inl e, w1, t1) =>
        match handler e w1 with
        | (r, w2, t2) => (r, w2, (t1 ++ t2)%list)
        end
    | (inr a, w1, t1) => (inr a, w1, t1)
    end.

(** A synchronous evaluation that may throw. *)
Definition lift {A} (r : result A) : M W A := fun w => (r, w, []).

Definition emit (x : effect) : M W unit := fun w => (inr tt, w, [x]).

Definition cli_log (line : string) : M W unit := emit (Log line).

Definition console_error (text : string) : M W unit := emit (ConsoleError text).

(** Projections of a finished computation. *)
Definition result_of {A} (o : result A * W * list effect) : result A := fst (fst o).
Definition world_of {A} (o : result A * W * list effect) : W := snd (fst o).
Definition trace_of {A} (o : result A * W * list effect) : list effect := snd o.
End Monad.

Notation "x <- m ;; k" := (bind m (fun x => k))
  (at level 61, m at next level, right associativity) : js_scope.
Notation "m ;; k" := (bind m (fun _ => k))
  (at level 61, right associativity) : js_scope.

(** The provider calls of a trace. *)
Fixpoint calls (t : list effect) : list event :=
  match t with
  | [] => []
  | Call ev :: rest => ev :: calls rest
  | _ :: rest => calls rest
  end.

Fixpoint console_errors (t : list effect) : list string :=
  match t with
  | [] => []
  | ConsoleError text :: rest => text :: console_errors rest
  | _ :: rest => console_errors rest
  end.

Definition is_request (operation : string) (ev : event) : bool :=
  match ev with
  | Request _ op _ _ => op =? operation
  | WaitFor _ _ _ => false
  end.

Definition is_wait (ev : event) : bool :=
  match ev with
  | Request _ _ _ _ => false
  | WaitFor _ _ _ => true
  end.

Definition rejected {A} (r : result A) : bool :=
  match r with
  | inl _ => true
  | inr _ => false
  end.

Definition resolved {A} (r : result A) : bool := negb (rejected r).

(** How many calls of a trace satisfy [p]. *)
Definition count (p : event -> bool) (t : list effect) : nat :=
  length (filter p (calls t)).

(* ===================================================================== *)
(** ** The plugin (index.js, lines 10-221) *)
(* ===================================================================== *)

(** The function stored in a hook: [this.applyDeploymentBucket.bind(this)]. *)
Inductive handler : Type := ApplyDeploymentBucket.

(** The fields of a [DeploymentBucketPlugin] instance. *)
Record plugin : Type := {
  deploymentBucket : value;
  config : value;
  hooks : list (string * handler)
}.

Definition hook_name : string := "before:aws:common:validate:validate".

(** [hooks[hook_name]] is set. *)
Definition registered (r : result plugin) : bool :=
  match r with
  | inl _ => false
  | inr p => existsb (fun h => fst h =? hook_name) (hooks p)
  end.

Section Plugin.
Context {RT : Runtime}.

(** *** The constructor (lines 11-38)

    [serverless] is the host object seen as data: its [version], its
    [service] configuration, its [processedInput] and its [providers]. *)
Definition constructor (serverless : value) : result plugin :=
  let? providers := get_prop serverless "providers" in
  let? _aws := get_prop providers "aws" in
  let? version := get_prop serverless "version" in
  let configPath :=
    if semver_satisfies version ">=2.10.0"
    then "provider.deploymentBucket"
    else "provider.deploymentBucketObject" in
  let? service := get_prop serverless "service" in
  let? deploymentBucket := get service configPath (VObj []) in
  let? service := get_prop serverless "service" in
  let? config := get service "custom.deploymentBucket" (VObj []) in
  let hooks := [] in
  let? enabled := get_prop config "enabled" in
  if negb (strict_eq_prim enabled VUndefined) && strict_eq_prim enabled (VBool false)
  then ok {| deploymentBucket := deploymentBucket; config := config; hooks := hooks |}
  else
    let? name := get_prop deploymentBucket "name" in
    if truthy name then
      let? versioning := get config "versioning" (VBool false) in
      let? config := set_prop config "versioning" versioning in
      let? accelerate := get config "accelerate" (VBool false) in
      let? config := set_prop config "accelerate" accelerate in
      let? policy := get config "policy" VUndefined in
      let? config := set_prop config "policy" policy in
      let? serverlessCommand := get serverless "processedInput.commands" (VArr [] []) in
      let? packaging := includes serverlessCommand "package" in
      if negb packaging
      then ok {| deploymentBucket := deploymentBucket; config := config;
                 hooks := [(hook_name, ApplyDeploymentBucket)] |}
      else ok {| deploymentBucket := deploymentBucket; config := config; hooks := hooks |}
    else ok {| deploymentBucket := deploymentBucket; config := config; hooks := hooks |}.

(** *** Comparison of a boolean with a configuration value

    [b != v] with a boolean on the left (lines 193 and 203): the boolean
    becomes 0 or 1; a string, and an object through its string
    conversion, is compared as the number it denotes. *)
Definition bool_to_number (b : bool) : Z := if b then 1%Z else 0%Z.

Definition number_is (z : Z) (n : option Z) : bool :=
  match n with
  | Some z' => (z =? z')%Z
  | None => false
  end.

Definition loose_eq_bool (b : bool) (v : value) : bool :=
  match v with
  | VBool c => Bool.eqb b c
  | VNum z => (bool_to_number b =? z)%Z
  | VNaN | VUndefined | VNull => false
  | VStr s => number_is (bool_to_number b) (StringToNumber s)
  | VObj _ | VArr _ _ | VFunction _ =>
      number_is (bool_to_number b) (StringToNumber (ToString v))
  end.

Definition loose_neq_bool (b : bool) (v : value) : bool := negb (loose_eq_bool b v).

Context {W : Type} {P : Provider W}.

(** The two ways the plugin reaches the provider; each call is recorded
    with its outcome. *)
Definition provider_request (service operation : string) (params : value)
  : M W response :=
  fun w =>
    match request service operation params w with
    | (out, w') => (out, w', [Call (Request service operation params out)])
    end.

Definition provider_waitFor (state : string) (params : value) : M W unit :=
  fun w =>
    match sdk_waitFor state params w with
    | (out, w') => (out, w', [Call (WaitFor state params out)])
    end.

(** *** Reader and mutator methods (lines 40-172) *)

Definition bucketExists (name : value) : M W bool :=
  let params := VObj [("Bucket", name)] in
  try_catch
    (_ <- provider_request "S3" "headBucket" params ;;
     ret true)
    (fun e => ret false).

Definition waitFor (name : value) (state : string) : M W bool :=
  let params := VObj [("Bucket", name)] in
  try_catch
    (_ <- provider_waitFor state params ;;
     ret true)
    (fun e =>
       cli_log ("Unable to wait for '" ++ state ++ "' - " ++ message e) ;;
       ret false).

Definition createBucket (name : value) : M W response :=
  let params := VObj [("Bucket", name); ("ACL", VStr "private")] in
  provider_request "S3" "createBucket" params.

Definition hasBucketEncryption (name : value) : M W bool :=
  let params := VObj [("Bucket", name)] in
  try_catch
    (_ <- provider_request "S3" "getBucketEncryption" params ;;
     ret true)
    (fun e => ret false).

Definition putBucketEncryption (name sseAlgorithm kmsMasterKeyId : value)
  : M W response :=
  let params :=
    VObj [("Bucket", name);
          ("ServerSideEncryptionConfiguration",
           VObj [("Rules",
                  VArr [VObj [("ApplyServerSideEncryptionByDefault",
                               VObj [("SSEAlgorithm", sseAlgorithm);
                                     ("KMSMasterKeyID", kmsMasterKeyId)])]]
                       [])])] in
  provider_request "S3" "putBucketEncryption" params.

(** [response.Status && response.Status == 'Enabled'] *)
Definition status_enabled (r : response) : bool :=
  match Status r with
  | Some s => truthy (VStr s) && (s =? "Enabled")
  | None => false
  end.

Definition hasBucketVersioning (name : value) : M W bool :=
  let params := VObj [("Bucket", name)] in
  try_catch
    (response <- provider_request "S3" "getBucketVersioning" params ;;
     if status_enabled response then ret true else ret false)
    (fun e => ret false).

Definition status_of (status : value) : value :=
  VStr (if truthy status then "Enabled" else "Suspended").

Definition putBucketVersioning (name status : value) : M W response :=
  let params :=
    VObj [("Bucket", name);
          ("VersioningConfiguration", VObj [("Status", status_of status)])] in
  provider_request "S3" "putBucketVersioning" params.

Definition hasBucketAcceleration (name : value) : M W bool :=
  let params := VObj [("Bucket", name)] in
  try_catch
    (response <- provider_request "S3" "getBucketAccelerateConfiguration" params ;;
     if status_enabled response then ret true else ret false)
    (fun e => ret false).

Definition putBucketAcceleration (name status : value) : M W response :=
  let params :=
    VObj [("Bucket", name);
          ("AccelerateConfiguration", VObj [("Status", status_of status)])] in
  provider_request "S3" "putBucketAccelerateConfiguration" params.

Definition putBucketPolicy (name policy : value) : M W response :=
  let params := VObj [("Bucket", name); ("Policy", JSON_stringify policy)] in
  provider_request "S3" "putBucketPolicy" params.

(** *** [applyDeploymentBucket] (lines 174-220)

    The body of the [try] block is a sequence of five statements, one per
    facet; they are named here and composed below. *)

Definition this_deploymentBucket (this : plugin) (k : string) : M W value :=
  lift (get_prop (deploymentBucket this) k).

Definition this_config (this : plugin) (k : string) : M W value :=
  lift (get_prop (config this) k).

(** lines 176-183 *)
Definition ensure_bucket (this : plugin) : M W unit :=
  name <- this_deploymentBucket this "name" ;;
  present <- bucketExists name ;;
  if present then
    name <- this_deploymentBucket this "name" ;;
    cli_log ("Using deployment bucket '" ++ ToString name ++ "'")
  else
    name <- this_deploymentBucket this "name" ;;
    cli_log ("Creating deployment bucket '" ++ ToString name ++ "'...") ;;
    name <- this_deploymentBucket this "name" ;;
    _ <- createBucket name ;;
    name <- this_deploymentBucket this "name" ;;
    _ <- waitFor name "bucketExists" ;;
    ret tt.

(** lines 185-191 *)
Definition reconcile_encryption (this : plugin) : M W unit :=
  sse <- this_deploymentBucket this "serverSideEncryption" ;;
  if truthy sse then
    name <- this_deploymentBucket this "name" ;;
    encrypted <- hasBucketEncryption name ;;
    if negb encrypted then
      name <- this_deploymentBucket this "name" ;;
      sse <- this_deploymentBucket this "serverSideEncryption" ;;
      _ <- putBucketEncryption name sse VUndefined ;;
      sse <- this_deploymentBucket this "serverSideEncryption" ;;
      cli_log ("Applied SSE (" ++ ToString sse ++ ") to deployment bucket")
    else ret tt
  else ret tt.

(** lines 193-201 *)
Definition reconcile_versioning (this : plugin) : M W unit :=
  name <- this_deploymentBucket this "name" ;;
  observed <- hasBucketVersioning name ;;
  versioning <- this_config this "versioning" ;;
  if loose_neq_bool observed versioning then
    name <- this_deploymentBucket this "name" ;;
    versioning <- this_config this "versioning" ;;
    _ <- putBucketVersioning name versioning ;;
    versioning <- this_config this "versioning" ;;
    if truthy versioning
    then cli_log "Enabled versioning on deployment bucket"
    else cli_log "Suspended versioning on deployment bucket"
  else ret tt.

(** lines 203-211 *)
Definition reconcile_acceleration (this : plugin) : M W unit :=
  name <- this_deploymentBucket this "name" ;;
  observed <- hasBucketAcceleration name ;;
  accelerate <- this_config this "accelerate" ;;
  if loose_neq_bool observed accelerate then
    name <- this_deploymentBucket this "name" ;;
    accelerate <- this_config this "accelerate" ;;
    _ <- putBucketAcceleration name accelerate ;;
    accelerate <- this_config this "accelerate" ;;
    if truthy accelerate
    then cli_log "Enabled acceleration on deployment bucket"
    else cli_log "Suspended acceleration on deployment bucket"
  else ret tt.

(** lines 213-216 *)
Definition apply_policy (this : plugin) : M W unit :=
  policy <- this_config this "policy" ;;
  if truthy policy then
    name <- this_deploymentBucket this "name" ;;
    policy <- this_config this "policy" ;;
    _ <- putBucketPolicy name policy ;;
    cli_log "Applied deployment bucket policy"
  else ret tt.

Definition newline : string := String (ascii_of_nat 10) "".

(** The text given to [chalk.red] at line 218. *)
Definition error_block (e : exn) : string :=
  newline ++ "-------- Deployment Bucket Error --------" ++ newline ++ message e.

(** The statements of the [try] block. *)
Definition reconcile (this : plugin) : M W unit :=
  ensure_bucket this ;;
  reconcile_encryption this ;;
  reconcile_versioning this ;;
  reconcile_acceleration this ;;
  apply_policy this.

Definition applyDeploymentBucket (this : plugin) : M W unit :=
  try_catch
    (reconcile this)
    (fun e => console_error (chalk_red (error_block e))).

End Plugin.


(* ===================================================================== *)
(** ** Vocabulary of the properties *)
(* ===================================================================== *)

Definition nullish (v : value) : bool :=
  match v with
  | VUndefined | VNull => true
  | _ => false
  end.

(** The property read from a value that is neither [undefined] nor
    [null]. *)
Definition prop {RT : Runtime} (obj : value) (k : string) : value :=
  match get_prop obj k with
  | inr v => v
  | inl _ => VUndefined
  end.

Definition cannot_read (k : string) : exn :=
  TypeError ("Cannot read properties of undefined or null (reading '" ++ k ++ "')").

(** The desired state a plugin instance holds. *)
Definition bucket_name {RT : Runtime} (this : plugin) : value :=
  prop (deploymentBucket this) "name".
Definition desired_sse {RT : Runtime} (this : plugin) : value :=
  prop (deploymentBucket this) "serverSideEncryption".
Definition desired_versioning {RT : Runtime} (this : plugin) : value :=
  prop (config this) "versioning".
Definition desired_acceleration {RT : Runtime} (this : plugin) : value :=
  prop (config this) "accelerate".
Definition desired_policy {RT : Runtime} (this : plugin) : value :=
  prop (config this) "policy".

(** The parameter objects the methods build. *)
Definition bucket_params (name : value) : value := VObj [("Bucket", name)].

Definition create_params (name : value) : value :=
  VObj [("Bucket", name); ("ACL", VStr "private")].

Definition encryption_params (name sse : value) : value :=
  VObj [("Bucket", name);
        ("ServerSideEncryptionConfiguration",
         VObj [("Rules",
                VArr [VObj [("ApplyServerSideEncryptionByDefault",
                             VObj [("SSEAlgorithm", sse);
                                   ("KMSMasterKeyID", VUndefined)])]]
                     [])])].

Definition versioning_params (name status : value) : value :=
  VObj [("Bucket", name);
        ("VersioningConfiguration", VObj [("Status", status_of status)])].

Definition acceleration_params (name status : value) : value :=
  VObj [("Bucket", name);
        ("AccelerateConfiguration", VObj [("Status", status_of status)])].

Definition policy_params {RT : Runtime} (name policy : value) : value :=
  VObj [("Bucket", name); ("Policy", JSON_stringify policy)].

(** [response.Status && response.Status == 'Enabled'], and what a status
    reader answers for the outcome of its query. *)
Definition observed_enabled (out : result response) : bool :=
  match out with
  | inr r => status_enabled r
  | inl _ => false
  end.

(** The lines and calls of a run. *)
Definition using_line {RT : Runtime} (this : plugin) : string :=
  "Using deployment bucket '" ++ ToString (bucket_name this) ++ "'".

Definition creating_line {RT : Runtime} (this : plugin) : string :=
  "Creating deployment bucket '" ++ ToString (bucket_name this) ++ "'...".

Definition sse_line {RT : Runtime} (this : plugin) : string :=
  "Applied SSE (" ++ ToString (desired_sse this) ++ ") to deployment bucket".

Definition versioning_line (status : value) : string :=
  if truthy status
  then "Enabled versioning on deployment bucket"
  else "Suspended versioning on deployment bucket".

Definition acceleration_line (status : value) : string :=
  if truthy status
  then "Enabled acceleration on deployment bucket"
  else "Suspended acceleration on deployment bucket".

Definition wait_failure_line (state : string) (e : exn) : string :=
  "Unable to wait for '" ++ state ++ "' - " ++ message e.

Definition request_call (operation : string) (params : value) (out : result response)
  : effect :=
  Call (Request "S3" operation params out).

Definition wait_call {RT : Runtime} (this : plugin) (out : result unit) : effect :=
  Call (WaitFor "bucketExists" (bucket_params (bucket_name this)) out).

(** *** Observations on a trace *)

Definition op_name (ev : event) : string :=
  match ev with
  | Request _ operation _ _ => operation
  | WaitFor _ _ _ => "waitFor"
  end.

Definition ev_rejected (ev : event) : bool :=
  match ev with
  | Request _ _ _ out => rejected out
  | WaitFor _ _ out => rejected out
  end.

Definition one_of (names : list string) (ev : event) : bool :=
  existsb (String.eqb (op_name ev)) names.

(** Every call of the trace is one of the named operations. *)
Definition ops_within (names : list string) (t : list effect) : bool :=
  forallb (one_of names) (calls t).

Definition ensure_ops : list string := ["headBucket"; "createBucket"; "waitFor"].
Definition encryption_ops : list string := ["getBucketEncryption"; "putBucketEncryption"].
Definition versioning_ops : list string := ["getBucketVersioning"; "putBucketVersioning"].
Definition acceleration_ops : list string :=
  ["getBucketAccelerateConfiguration"; "putBucketAccelerateConfiguration"].
Definition policy_ops : list string := ["putBucketPolicy"].

(** The operations on the facets of the bucket. *)
Definition facet_ops : list string :=
  encryption_ops ++ versioning_ops ++ acceleration_ops ++ policy_ops.

(** Every operation the plugin ever asks of the provider. *)
Definition all_ops : list string := ensure_ops ++ facet_ops.

(** The operations that change the bucket. *)
Definition mutation_ops : list string :=
  ["createBucket"; "putBucketEncryption"; "putBucketVersioning";
   "putBucketAccelerateConfiguration"; "putBucketPolicy"].

Definition failed_mutation (ev : event) : bool :=
  one_of mutation_ops ev && ev_rejected ev.

(** A mutation before the policy step was rejected. *)
Definition earlier_failure (t : list effect) : bool :=
  existsb
    (fun ev => failed_mutation ev && negb (is_request "putBucketPolicy" ev))
    (calls t).

(** A status probe of the run answered [b]. *)
Definition probe_observed (operation : string) (b : bool) (ev : event) : bool :=
  match ev with
  | Request _ op _ out => (op =? operation) && Bool.eqb (observed_enabled out) b
  | WaitFor _ _ _ => false
  end.

(** A request of the named operation that was rejected, that resolved. *)
Definition rejected_request (operation : string) (ev : event) : bool :=
  is_request operation ev && ev_rejected ev.

Definition resolved_request (operation : string) (ev : event) : bool :=
  is_request operation ev && negb (ev_rejected ev).

(** *** A provider that keeps what it is given

    What the reconciler needs of the provider to converge, for the bucket
    [name]: the status a reader would observe in a provider state is the
    one last put, and no other call changes it. *)
Section Faithful.
Context {W : Type} {P : Provider W}.
Variable name : value.

Definition versioning_observed (w : W) : bool :=
  observed_enabled (fst (request "S3" "getBucketVersioning" (bucket_params name) w)).

Definition acceleration_observed (w : W) : bool :=
  observed_enabled
    (fst (request "S3" "getBucketAccelerateConfiguration" (bucket_params name) w)).

Record faithful : Prop := {
  put_versioning_sets : forall status w r w1,
    request "S3" "putBucketVersioning" (versioning_params name status) w = (inr r, w1) ->
    versioning_observed w1 = truthy status;
  versioning_kept : forall service operation params w,
    operation <> "putBucketVersioning" ->
    versioning_observed (snd (request service operation params w)) = versioning_observed w;
  versioning_kept_by_wait : forall state params w,
    versioning_observed (snd (sdk_waitFor state params w)) = versioning_observed w;
  put_acceleration_sets : forall status w r w1,
    request "S3" "putBucketAccelerateConfiguration" (acceleration_params name status) w
    = (inr r, w1) ->
    acceleration_observed w1 = truthy status;
  acceleration_kept : forall service operation params w,
    operation <> "putBucketAccelerateConfiguration" ->
    acceleration_observed (snd (request service operation params w))
    = acceleration_observed w;
  acceleration_kept_by_wait : forall state params w,
    acceleration_observed (snd (sdk_waitFor state params w)) = acceleration_observed w
}.

End Faithful.

(** *** The sequence of the five statements *)

Section Sequence.
Context {RT : Runtime} {W : Type} {P : Provider W}.

(** How far a run of the [try] block gets: it stops at the first statement
    that throws. *)
Inductive reconciled (this : plugin) (w : W) : result unit -> W -> list effect -> Prop :=
| stops_at_bucket e w1 t1 :
    ensure_bucket this w = (inl e, w1, t1) ->
    reconciled this w (inl e) w1 t1
| stops_at_encryption e w1 t1 w2 t2 :
    ensure_bucket this w = (inr tt, w1, t1) ->
    reconcile_encryption this w1 = (inl e, w2, t2) ->
    reconciled this w (inl e) w2 (t1 ++ t2)%list
| stops_at_versioning e w1 t1 w2 t2 w3 t3 :
    ensure_bucket this w = (inr tt, w1, t1) ->
    reconcile_encryption this w1 = (inr tt, w2, t2) ->
    reconcile_versioning this w2 = (inl e, w3, t3) ->
    reconciled this w (inl e) w3 (t1 ++ t2 ++ t3)%list
| stops_at_acceleration e w1 t1 w2 t2 w3 t3 w4 t4 :
    ensure_bucket this w = (inr tt, w1, t1) ->
    reconcile_encryption this w1 = (inr tt, w2, t2) ->
    reconcile_versioning this w2 = (inr tt, w3, t3) ->
    reconcile_acceleration this w3 = (inl e, w4, t4) ->
    reconciled this w (inl e) w4 (t1 ++ t2 ++ t3 ++ t4)%list
| reaches_policy r w1 t1 w2 t2 w3 t3 w4 t4 w5 t5 :
    ensure_bucket this w = (inr tt, w1, t1) ->
    reconcile_encryption this w1 = (inr tt, w2, t2) ->
    reconcile_versioning this w2 = (inr tt, w3, t3) ->
    reconcile_acceleration this w3 = (inr tt, w4, t4) ->
    apply_policy this w4 = (r, w5, t5) ->
    reconciled this w r w5 (t1 ++ t2 ++ t3 ++ t4 ++ t5)%list.

(** A poll that failed. *)
Definition failed_wait (x : effect) : bool :=
  match x with
  | Call (WaitFor _ _ (inl _)) => true
  | _ => false
  end.

(** No mutation of the trace was rejected. *)
Definition failure_free (t : list effect) : bool :=
  negb (existsb failed_mutation (calls t)).

(** The trace ends with a mutation rejected with [e], the only one. *)
Definition ends_in_failure (e : exn) (t : list effect) : Prop :=
  exists pre op params,
    t = (pre ++ [request_call op params (inl e)])%list
    /\ In op mutation_ops
    /\ failure_free pre = true.

(** What a statement that returned [r] with the trace [t] owes: nothing
    printed on the console, no rejected mutation when it returned normally,
    and when it threw [e] either no rejected mutation or one, last in the
    trace, rejected with [e]. *)
Definition disciplined (r : result unit) (t : list effect) : Prop :=
  console_errors t = []
  /\ match r with
     | inr _ => failure_free t = true
     | inl e => failure_free t = true \/ ends_in_failure e t
     end.

End Sequence.

(* ===================================================================== *)
(** ** Vocabulary of the further properties *)
(* ===================================================================== *)

(** *** Paths *)

(** [steps.join('.')] *)
Fixpoint join_dot (steps : list string) : string :=
  match steps with
  | [] => ""
  | step :: rest =>
      match rest with
      | [] => step
      | _ :: _ => step ++ "." ++ join_dot rest
      end
  end.

Fixpoint dotless (s : string) : bool :=
  match s with
  | EmptyString => true
  | String c rest => negb (Ascii.eqb c dot) && dotless rest
  end.

(** A property name that can be written as a step of a path: not empty,
    without a dot. *)
Definition step_name (s : string) : bool := truthy (VStr s) && dotless s.

(** *** The host object *)

(** The path of the bucket configuration (lines 15-17). *)
Definition config_path {RT : Runtime} (version : value) : string :=
  if semver_satisfies version ">=2.10.0"
  then "provider.deploymentBucket"
  else "provider.deploymentBucketObject".

(** The host as the constructor reads it: the AWS provider, the version of
    the framework, the service configuration and the processed input. *)
Definition host_of (version service processedInput : value) : value :=
  VObj [("providers", VObj [("aws", VObj [])]);
        ("version", version);
        ("service", service);
        ("processedInput", processedInput)].

Definition primitive (v : value) : bool :=
  match v with
  | VBool _ | VNum _ | VNaN | VStr _ => true
  | VUndefined | VNull | VObj _ | VArr _ _ | VFunction _ => false
  end.

(** *** The calls and the lines of a run *)

Definition params_of (ev : event) : value :=
  match ev with
  | Request _ _ params _ => params
  | WaitFor _ params _ => params
  end.

(** The parameter object each operation is given, from the desired state
    of the plugin. *)
Definition expected_params {RT : Runtime} (this : plugin) (operation : string) : value :=
  let name := bucket_name this in
  if operation =? "createBucket" then create_params name
  else if operation =? "putBucketEncryption" then
    encryption_params name (desired_sse this)
  else if operation =? "putBucketVersioning" then
    versioning_params name (desired_versioning this)
  else if operation =? "putBucketAccelerateConfiguration" then
    acceleration_params name (desired_acceleration this)
  else if operation =? "putBucketPolicy" then
    policy_params name (desired_policy this)
  else bucket_params name.

(** [l] is [big] with some of its elements left out. *)
Fixpoint subsequence (l big : list string) : bool :=
  match big with
  | [] =>
      match l with
      | [] => true
      | _ :: _ => false
      end
  | b :: big' =>
      match l with
      | [] => true
      | x :: l' => if x =? b then subsequence l' big' else subsequence l big'
      end
  end.

(** The line logged right after a call, if any: which of the two lines on
    the bucket follows the existence probe, the failure of the poll, the
    line on a change that was accepted. *)
Definition report {RT : Runtime} (this : plugin) (ev : event) : list effect :=
  match ev with
  | Request _ operation _ (inr _) =>
      if operation =? "headBucket" then [Log (using_line this)]
      else if operation =? "putBucketEncryption" then [Log (sse_line this)]
      else if operation =? "putBucketVersioning" then
        [Log (versioning_line (desired_versioning this))]
      else if operation =? "putBucketAccelerateConfiguration" then
        [Log (acceleration_line (desired_acceleration this))]
      else if operation =? "putBucketPolicy" then [Log "Applied deployment bucket policy"]
      else []
  | Request _ operation _ (inl _) =>
      if operation =? "headBucket" then [Log (creating_line this)] else []
  | WaitFor state _ (inl e) => [Log (wait_failure_line state e)]
  | WaitFor _ _ (inr _) => []
  end.

Definition narrated {RT : Runtime} (this : plugin) (ev : event) : list effect :=
  Call ev :: report this ev.

(** *** A provider that keeps the bucket and its encryption

    What the reconciler needs of the provider, for the bucket [name], to
    find at the next run what it left: the existence query resolves after
    an accepted [createBucket], the encryption query resolves after an
    accepted [putBucketEncryption], and none of the calls the plugin makes
    takes the bucket or its encryption away. *)
Section Kept.
Context {W : Type} {P : Provider W}.
Variable name : value.

Definition bucket_observed (w : W) : bool :=
  resolved (fst (request "S3" "headBucket" (bucket_params name) w)).

Definition encryption_observed (w : W) : bool :=
  resolved (fst (request "S3" "getBucketEncryption" (bucket_params name) w)).

Record keeps_bucket : Prop := {
  create_sets : forall w r w1,
    request "S3" "createBucket" (create_params name) w = (inr r, w1) ->
    bucket_observed w1 = true;
  bucket_stays : forall operation params w,
    In operation all_ops ->
    bucket_observed w = true ->
    bucket_observed (snd (request "S3" operation params w)) = true;
  bucket_stays_by_wait : forall state params w,
    bucket_observed w = true ->
    bucket_observed (snd (sdk_waitFor state params w)) = true
}.

Record keeps_encryption : Prop := {
  put_encryption_sets : forall sse w r w1,
    request "S3" "putBucketEncryption" (encryption_params name sse) w = (inr r, w1) ->
    encryption_observed w1 = true;
  encryption_stays : forall operation params w,
    In operation all_ops ->
    encryption_observed w = true ->
    encryption_observed (snd (request "S3" operation params w)) = true;
  encryption_stays_by_wait : forall state params w,
    encryption_observed w = true ->
    encryption_observed (snd (sdk_waitFor state params w)) = true
}.

End Kept.

(** *** A bucket that is as desired

    In the provider state [w] the bucket of the plugin exists, is encrypted
    if encryption is asked for, and its versioning and acceleration status
    are the desired booleans. *)
Definition settled {RT : Runtime} {W : Type} {P : Provider W} (this : plugin) (w : W)
  : Prop :=
  let name := bucket_name this in
  bucket_observed name w = true
  /\ (truthy (desired_sse this) = true -> encryption_observed name w = true)
  /\ desired_versioning this = VBool (versioning_observed name w)
  /\ desired_acceleration this = VBool (acceleration_observed name w).

(** The operations that set the bucket up, the policy apart. *)
Definition provisioning_ops : list string :=
  ["createBucket"; "putBucketEncryption"; "putBucketVersioning";
   "putBucketAccelerateConfiguration"].


(* ===================================================================== *)
(** ** A runtime and a provider to run the plugin on *)
(* ===================================================================== *)

(** *** A runtime

    Conversions on the values the examples use: strings without characters
    to escape, integers, and numerals without surrounding blanks. *)

Definition quote : string := String (ascii_of_nat 34) "".

Definition Z_to_string (z : Z) : string := NilZero.string_of_int (Z.to_int z).

Fixpoint to_string (v : value) : string :=
  match v with
  | VUndefined => "undefined"
  | VNull => "null"
  | VBool true => "true"
  | VBool false => "false"
  | VNum z => Z_to_string z
  | VNaN => "NaN"
  | VStr s => s
  | VObj _ => "[object Object]"
  | VFunction _ => "function () { [native code] }"
  | VArr elems _ =>
      (fix join (l : list value) : string :=
         match l with
         | [] => ""
         | x :: rest =>
             (match x with
              | VUndefined | VNull => ""
              | _ => to_string x
              end)
             ++ match rest with
                | [] => ""
                | _ :: _ => "," ++ join rest
                end
         end) elems
  end.

Definition string_to_number (s : string) : option Z :=
  if s =? "" then Some 0%Z
  else option_map Z.of_int (NilZero.int_of_string s).

Fixpoint json (v : value) : string :=
  match v with
  | VUndefined | VNull | VNaN | VFunction _ => "null"
  | VBool true => "true"
  | VBool false => "false"
  | VNum z => Z_to_string z
  | VStr s => quote ++ s ++ quote
  | VObj props =>
      "{" ++
      (fix members (first : bool) (l : list (string * value)) : string :=
         match l with
         | [] => ""
         | (k, VUndefined) :: rest | (k, VFunction _) :: rest => members first rest
         | (k, x) :: rest =>
             (if first then "" else ",")
             ++ quote ++ k ++ quote ++ ":" ++ json x ++ members false rest
         end) true props
      ++ "}"
  | VArr elems _ =>
      "[" ++
      (fix items (l : list value) : string :=
         match l with
         | [] => ""
         | x :: rest =>
             json x ++ match rest with
                       | [] => ""
                       | _ :: _ => "," ++ items rest
                       end
         end) elems
      ++ "]"
  end.

Definition json_stringify (v : value) : value :=
  match v with
  | VUndefined | VFunction _ => VUndefined
  | _ => VStr (json v)
  end.

(** Of the inherited members, the methods of [Object.prototype], which
    every prototype chain ends with. *)
Definition object_members : list string :=
  ["constructor"; "hasOwnProperty"; "isPrototypeOf"; "propertyIsEnumerable";
   "toLocaleString"; "toString"; "valueOf"].

Definition member_of (p : prototype) (k : string) : value :=
  if existsb (String.eqb k) object_members then VFunction [] else VUndefined.

Definition numeral (s : string) : nat :=
  match NilZero.uint_of_string s with
  | Some u => Nat.of_uint u
  | None => 0
  end.

(** [semver.satisfies(version, '>=2.10.0')] on a plain [major.minor.patch]
    version; the plugin asks for no other range. *)
Definition satisfies (version : value) (range : string) : bool :=
  match version with
  | VStr s =>
      match split_dot s with
      | major :: minor :: _ =>
          ((3 <=? numeral major) || ((numeral major =? 2) && (10 <=? numeral minor)))%nat
      | _ => false
      end
  | _ => false
  end.

#[export] Instance sample_runtime : Runtime := {|
  inherited := member_of;
  ToString := to_string;
  StringToNumber := string_to_number;
  JSON_stringify := json_stringify;
  semver_satisfies := satisfies;
  chalk_red := fun s => s
|}.

(** *** An in-memory provider serving one bucket

    The state is the bucket; [denied] lists the operations the caller's
    credentials do not allow. *)
Record bucket : Type := {
  present : bool;
  encrypted : bool;
  versioning_status : option string;
  acceleration_status : option string;
  policy_text : option value
}.

Definition no_bucket : bucket :=
  {| present := false; encrypted := false; versioning_status := None;
     acceleration_status := None; policy_text := None |}.

Definition fresh_bucket : bucket :=
  {| present := true; encrypted := false; versioning_status := None;
     acceleration_status := None; policy_text := None |}.

Definition no_content : response := {| Status := None |}.

(** An own member of a parameter object. *)
Definition param (params : value) (k : string) : value :=
  match params with
  | VObj props => match own k props with Some v => v | None => VUndefined end
  | _ => VUndefined
  end.

Definition param_status (params : value) (member : string) : option string :=
  match param (param params member) "Status" with
  | VStr s => Some s
  | _ => None
  end.

Definition mem_request (denied : list string) (service operation : string)
  (params : value) (b : bucket) : result response * bucket :=
  if existsb (String.eqb operation) denied then (inl (Error "AccessDenied"), b)
  else if operation =? "headBucket" then
    if present b then (inr no_content, b) else (inl (Error "NotFound"), b)
  else if operation =? "createBucket" then
    if present b then (inl (Error "BucketAlreadyOwnedByYou"), b)
    else (inr no_content, fresh_bucket)
  else if negb (present b) then (inl (Error "NoSuchBucket"), b)
  else if operation =? "getBucketEncryption" then
    if encrypted b then (inr no_content, b)
    else (inl (Error "ServerSideEncryptionConfigurationNotFoundError"), b)
  else if operation =? "putBucketEncryption" then
    (inr no_content,
     {| present := true; encrypted := true;
        versioning_status := versioning_status b;
        acceleration_status := acceleration_status b;
        policy_text := policy_text b |})
  else if operation =? "getBucketVersioning" then
    (inr {| Status := versioning_status b |}, b)
  else if operation =? "putBucketVersioning" then
    (inr no_content,
     {| present := true; encrypted := encrypted b;
        versioning_status := param_status params "VersioningConfiguration";
        acceleration_status := acceleration_status b;
        policy_text := policy_text b |})
  else if operation =? "getBucketAccelerateConfiguration" then
    (inr {| Status := acceleration_status b |}, b)
  else if operation =? "putBucketAccelerateConfiguration" then
    (inr no_content,
     {| present := true; encrypted := encrypted b;
        versioning_status := versioning_status b;
        acceleration_status := param_status params "AccelerateConfiguration";
        policy_text := policy_text b |})
  else if operation =? "putBucketPolicy" then
    (inr no_content,
     {| present := true; encrypted := encrypted b;
        versioning_status := versioning_status b;
        acceleration_status := acceleration_status b;
        policy_text := Some (param params "Policy") |})
  else (inl (Error "UnknownOperation"), b).

Definition mem_waitFor (denied : list string) (state : string) (params : value)
  (b : bucket) : result unit * bucket :=
  if existsb (String.eqb "waitFor") denied then (inl (Error "AccessDenied"), b)
  else if present b then (inr tt, b)
  else (inl (Error "Resource is not in the state bucketExists"), b).

Definition mem_s3 (denied : list string) : Provider bucket :=
  {| request := mem_request denied; sdk_waitFor := mem_waitFor denied |}.

(** A plugin instance as the constructor leaves it, from its desired
    state. *)
Definition plugin_of (deploymentBucket config : value) : plugin :=
  {| deploymentBucket := deploymentBucket; config := config;
     hooks := [(hook_name, ApplyDeploymentBucket)] |}.

(** *** Desired states and buckets of the examples *)

(** [b1]: versioning wanted, acceleration not, no policy. *)
Definition b1 : plugin :=
  plugin_of
    (VObj [("name", VStr "b1")])
    (VObj [("versioning", VBool true); ("accelerate", VBool false);
           ("policy", VUndefined)]).

(** [b2]: only the name; the constructor fills in the defaults. *)
Definition b2 : plugin :=
  plugin_of
    (VObj [("name", VStr "b2")])
    (VObj [("versioning", VBool false); ("accelerate", VBool false);
           ("policy", VUndefined)]).

(** [b3]: as [b1], with a policy. *)
Definition b3 : plugin :=
  plugin_of
    (VObj [("name", VStr "b3")])
    (VObj [("versioning", VBool true); ("accelerate", VBool false);
           ("policy", VObj [("Version", VStr "2012-10-17")])]).

(** [b4]: as [b1], with the versioning flag written as a quoted word. *)
Definition b4 : plugin :=
  plugin_of
    (VObj [("name", VStr "b4")])
    (VObj [("versioning", VStr "yes"); ("accelerate", VBool false);
           ("policy", VUndefined)]).

Definition suspended_bucket : bucket :=
  {| present := true; encrypted := false; versioning_status := Some "Suspended";
     acceleration_status := None; policy_text := None |}.

(** The host of a [deploy] command of Serverless 3 for the service of
    [b1]. *)
Definition deploy_host : value :=
  VObj [("providers", VObj [("aws", VObj [])]);
        ("version", VStr "3.38.0");
        ("service",
         VObj [("provider", VObj [("deploymentBucket", VObj [("name", VStr "b1")])]);
               ("custom", VObj [("deploymentBucket", VObj [("versioning", VBool true)])])]);
        ("processedInput", VObj [("commands", VArr [VStr "deploy"] [])])].


(** A service whose [custom.deploymentBucket] is the name of the bucket
    instead of an object of settings. *)
Definition misconfigured_service : value :=
  VObj [("provider", VObj [("deploymentBucket", VObj [("name", VStr "b1")])]);
        ("custom", VObj [("deploymentBucket", VStr "b1")])].

(** [b5]: as [b2], with default encryption asked for. *)
Definition b5 : plugin :=
  plugin_of
    (VObj [("name", VStr "b5"); ("serverSideEncryption", VStr "AES256")])
    (VObj [("versioning", VBool false); ("accelerate", VBool false);
           ("policy", VUndefined)]).

(** What a call of the plugin [this] carries: the parameter object of its
    operation, about the bucket of the plugin. *)
Definition carries {RT : Runtime} (this : plugin) (ev : event) : Prop :=
  params_of ev = expected_params this (op_name ev)
  /\ param (params_of ev) "Bucket" = bucket_name this.

(** A bucket as [b1] wants it. *)
Definition enabled_bucket : bucket :=
  {| present := true; encrypted := false; versioning_status := Some "Enabled";
     acceleration_status := None; policy_text := None |}.



(* ===================================================================== *)
(** ** Reading properties, reading traces *)
(* ===================================================================== *)

Unset Implicit Arguments.

Section Reading.
Context {RT : Runtime}.

Lemma get_prop_ok obj k : nullish obj = false -> get_prop obj k = ok (prop obj k).
Proof. unfold prop. destruct obj; simpl; try discriminate; reflexivity. Qed.

Lemma get_prop_nullish obj k : nullish obj = true -> get_prop obj k = throw (cannot_read k).
Proof. destruct obj; simpl; try discriminate; reflexivity. Qed.

Lemma prop_nullish obj k : nullish obj = true -> prop obj k = VUndefined.
Proof. destruct obj; simpl; try discriminate; reflexivity. Qed.

End Reading.

Lemma truthy_not_nullish v : truthy v = true -> nullish v = false.
Proof. destruct v; simpl; congruence. Qed.

(** *** Traces *)

Lemma calls_app t1 t2 : calls (t1 ++ t2) = (calls t1 ++ calls t2)%list.
Proof.
  induction t1 as [|x t1 IH]; simpl; [reflexivity|].
  destruct x; simpl; rewrite IH; reflexivity.
Qed.

Lemma console_errors_app t1 t2 :
  console_errors (t1 ++ t2) = (console_errors t1 ++ console_errors t2)%list.
Proof.
  induction t1 as [|x t1 IH]; simpl; [reflexivity|].
  destruct x; simpl; rewrite IH; reflexivity.
Qed.

Lemma count_app p t1 t2 : count p (t1 ++ t2) = count p t1 + count p t2.
Proof. unfold count. rewrite calls_app, filter_app, length_app. reflexivity. Qed.

Lemma ops_within_app names t1 t2 :
  ops_within names (t1 ++ t2) = ops_within names t1 && ops_within names t2.
Proof. unfold ops_within. rewrite calls_app, forallb_app. reflexivity. Qed.

Lemma failure_free_app t1 t2 :
  failure_free (t1 ++ t2) = failure_free t1 && failure_free t2.
Proof.
  unfold failure_free. rewrite calls_app, existsb_app, negb_orb. reflexivity.
Qed.

(** A predicate that holds of none of the named operations holds of no call
    of a trace made of them. *)
Lemma ops_within_existsb names p t :
  ops_within names t = true ->
  (forall ev, one_of names ev = true -> p ev = false) ->
  existsb p (calls t) = false.
Proof.
  unfold ops_within. intros Hall Hp.
  induction (calls t) as [|ev l IH]; simpl in *; [reflexivity|].
  apply andb_true_iff in Hall as [Hev Hl].
  rewrite (Hp ev Hev), (IH Hl). reflexivity.
Qed.

Lemma ops_within_count names p t :
  ops_within names t = true ->
  (forall ev, one_of names ev = true -> p ev = false) ->
  count p t = 0.
Proof.
  unfold ops_within, count. intros Hall Hp.
  induction (calls t) as [|ev l IH]; simpl in *; [reflexivity|].
  apply andb_true_iff in Hall as [Hev Hl].
  rewrite (Hp ev Hev). auto.
Qed.

Lemma ops_within_incl names names' t :
  ops_within names t = true ->
  (forall ev, one_of names ev = true -> one_of names' ev = true) ->
  ops_within names' t = true.
Proof.
  unfold ops_within. intros Hall Hincl.
  induction (calls t) as [|ev l IH]; simpl in *; [reflexivity|].
  apply andb_true_iff in Hall as [Hev Hl].
  rewrite (Hincl ev Hev), (IH Hl). reflexivity.
Qed.

(** Settles [forall ev, one_of names ev = true -> p ev = ...] for closed
    lists of names. *)
Ltac by_names :=
  let ev := fresh "ev" in
  let H := fresh "H" in
  intros ev H; destruct ev; cbn in H |- *;
  repeat match type of H with
    | (_ || _)%bool = true => apply orb_true_iff in H as [H|H]
    | (_ =? _) = true => apply String.eqb_eq in H; subst
    end;
  (reflexivity || discriminate).


(** Where an effect that occurs once stands in a trace. *)
Lemma split_at_unique (p : effect -> bool) front x back pre y post :
  (front ++ x :: back = pre ++ y :: post)%list ->
  existsb p front = false -> existsb p back = false -> p y = true ->
  pre = front /\ y = x /\ post = back.
Proof.
  revert pre. induction front as [|a front IH]; intros pre Heq Hfront Hback Hy.
  - destruct pre as [|z pre]; simpl in Heq.
    + inversion Heq. repeat split; reflexivity.
    + exfalso. inversion Heq; subst.
      rewrite existsb_app in Hback. simpl in Hback. rewrite Hy in Hback.
      rewrite orb_true_r in Hback. discriminate.
  - simpl in Hfront. apply orb_false_iff in Hfront as [Ha Hfront].
    destruct pre as [|z pre]; simpl in Heq.
    + exfalso. inversion Heq; subst. congruence.
    + inversion Heq; subst.
      destruct (IH pre H1 Hfront Hback Hy) as (-> & -> & ->).
      repeat split; reflexivity.
Qed.

Lemma no_split (p : effect -> bool) l pre y post :
  l = (pre ++ y :: post)%list -> existsb p l = false -> p y = true -> False.
Proof.
  intros -> H Hy. rewrite existsb_app in H. simpl in H. rewrite Hy in H.
  rewrite orb_true_r in H. discriminate.
Qed.

Lemma ops_no_failed_wait names t :
  ops_within names t = true ->
  existsb (String.eqb "waitFor") names = false ->
  existsb failed_wait t = false.
Proof.
  unfold ops_within. intros Hall Hno.
  induction t as [|x t IH]; simpl in *; [reflexivity|].
  destruct x as [ev|line|text]; simpl in *; auto.
  apply andb_true_iff in Hall as [Hev Hall].
  rewrite (IH Hall). destruct ev as [s op p out|st p out]; simpl; [reflexivity|].
  unfold one_of in Hev. simpl in Hev. congruence.
Qed.
(* ===================================================================== *)
(** ** How the methods run *)
(* ===================================================================== *)

Section Execution.
Context {RT : Runtime} {W : Type} {P : Provider W}.

Ltac unfold_methods :=
  cbv beta iota zeta delta
    [ensure_bucket reconcile_encryption
     reconcile_versioning reconcile_acceleration apply_policy
     this_deploymentBucket this_config
     bucketExists waitFor createBucket hasBucketEncryption putBucketEncryption
     hasBucketVersioning putBucketVersioning hasBucketAcceleration
     putBucketAcceleration putBucketPolicy
     provider_request provider_waitFor
     bind try_catch lift ret emit cli_log console_error ok throw
     negb resolved rejected app].

Ltac exec_step :=
  match goal with
  | H : nullish ?o = false |- context [get_prop ?o ?k] =>
      rewrite (get_prop_ok o k H)
  | H : nullish ?o = true |- context [get_prop ?o ?k] =>
      rewrite (get_prop_nullish o k H)
  | H : request ?s ?o ?p ?w = _ |- context [request ?s ?o ?p ?w] => rewrite H
  | H : sdk_waitFor ?s ?p ?w = _ |- context [sdk_waitFor ?s ?p ?w] => rewrite H
  | H : truthy ?v = _ |- context [truthy ?v] => rewrite H
  | H : loose_neq_bool ?b ?v = _ |- context [loose_neq_bool ?b ?v] => rewrite H
  | H : status_enabled ?r = _ |- context [status_enabled ?r] => rewrite H
  | |- context [if truthy ?v then _ else _] =>
      destruct (truthy v) eqn:?
  | |- context [if loose_neq_bool ?b ?v then _ else _] =>
      destruct (loose_neq_bool b v) eqn:?
  | |- context [if status_enabled ?r then _ else _] =>
      destruct (status_enabled r) eqn:?
  | |- context [match request ?s ?o ?p ?w with _ => _ end] =>
      destruct (request s o p w) as [[?e|?r] ?w] eqn:?
  | |- context [match sdk_waitFor ?s ?p ?w with _ => _ end] =>
      destruct (sdk_waitFor s p w) as [[?e|?r] ?w] eqn:?
  end.

Ltac exec := unfold_methods; repeat (exec_step; unfold_methods).

(** *** Readers, the poll *)

Lemma bucketExists_run name w :
  bucketExists name w =
  match request "S3" "headBucket" (bucket_params name) w with
  | (out, w1) =>
      (inr (resolved out), w1, [Call (Request "S3" "headBucket" (bucket_params name) out)])
  end.
Proof. unfold bucket_params. exec; reflexivity. Qed.

Lemma hasBucketEncryption_run name w :
  hasBucketEncryption name w =
  match request "S3" "getBucketEncryption" (bucket_params name) w with
  | (out, w1) =>
      (inr (resolved out), w1,
       [Call (Request "S3" "getBucketEncryption" (bucket_params name) out)])
  end.
Proof. unfold bucket_params. exec; reflexivity. Qed.

Lemma hasBucketVersioning_run name w :
  hasBucketVersioning name w =
  match request "S3" "getBucketVersioning" (bucket_params name) w with
  | (out, w1) =>
      (inr (observed_enabled out), w1,
       [Call (Request "S3" "getBucketVersioning" (bucket_params name) out)])
  end.
Proof. unfold bucket_params, observed_enabled. exec; reflexivity. Qed.

Lemma hasBucketAcceleration_run name w :
  hasBucketAcceleration name w =
  match request "S3" "getBucketAccelerateConfiguration" (bucket_params name) w with
  | (out, w1) =>
      (inr (observed_enabled out), w1,
       [Call (Request "S3" "getBucketAccelerateConfiguration" (bucket_params name) out)])
  end.
Proof. unfold bucket_params, observed_enabled. exec; reflexivity. Qed.

Lemma waitFor_run name state w :
  waitFor name state w =
  match sdk_waitFor state (bucket_params name) w with
  | (out, w1) =>
      (inr (resolved out), w1,
       Call (WaitFor state (bucket_params name) out)
       :: match out with
          | inl e => [Log (wait_failure_line state e)]
          | inr _ => []
          end)
  end.
Proof. unfold bucket_params, wait_failure_line. exec; reflexivity. Qed.

(** *** The five statements of the [try] block

    Each equation reads the statement off as a decision tree over the
    outcomes of its provider calls.  [deploymentBucket] and [config] are
    objects in every plugin the constructor builds; a statement that reads a
    property of [undefined] or [null] throws at that point. *)

Ltac unfold_names :=
  unfold request_call, wait_call, using_line, creating_line, sse_line,
    bucket_name, desired_sse, desired_versioning, desired_acceleration, desired_policy,
    bucket_params, create_params, encryption_params, versioning_params,
    acceleration_params, policy_params, wait_failure_line, observed_enabled.

Lemma ensure_bucket_run this w :
  nullish (deploymentBucket this) = false ->
  ensure_bucket this w =
  let name := bucket_name this in
  match request "S3" "headBucket" (bucket_params name) w with
  | (inr r, w1) =>
      (inr tt, w1, [request_call "headBucket" (bucket_params name) (inr r);
                    Log (using_line this)])
  | (inl e, w1) =>
      match request "S3" "createBucket" (create_params name) w1 with
      | (inl e2, w2) =>
          (inl e2, w2, [request_call "headBucket" (bucket_params name) (inl e);
                        Log (creating_line this);
                        request_call "createBucket" (create_params name) (inl e2)])
      | (inr r2, w2) =>
          match sdk_waitFor "bucketExists" (bucket_params name) w2 with
          | (out, w3) =>
              (inr tt, w3,
               [request_call "headBucket" (bucket_params name) (inl e);
                Log (creating_line this);
                request_call "createBucket" (create_params name) (inr r2);
                wait_call this out]
               ++ match out with
                  | inl e3 => [Log (wait_failure_line "bucketExists" e3)]
                  | inr _ => []
                  end)%list
          end
      end
  end.
Proof. intros Hdb. unfold_names. exec; reflexivity. Qed.

Lemma ensure_bucket_nullish this w :
  nullish (deploymentBucket this) = true ->
  ensure_bucket this w = (inl (cannot_read "name"), w, []).
Proof. intros Hdb. exec; reflexivity. Qed.

Lemma reconcile_encryption_run this w :
  nullish (deploymentBucket this) = false ->
  reconcile_encryption this w =
  let name := bucket_name this in
  let sse := desired_sse this in
  if truthy sse then
    match request "S3" "getBucketEncryption" (bucket_params name) w with
    | (inr r, w1) =>
        (inr tt, w1, [request_call "getBucketEncryption" (bucket_params name) (inr r)])
    | (inl e, w1) =>
        match request "S3" "putBucketEncryption" (encryption_params name sse) w1 with
        | (inl e2, w2) =>
            (inl e2, w2,
             [request_call "getBucketEncryption" (bucket_params name) (inl e);
              request_call "putBucketEncryption" (encryption_params name sse) (inl e2)])
        | (inr r2, w2) =>
            (inr tt, w2,
             [request_call "getBucketEncryption" (bucket_params name) (inl e);
              request_call "putBucketEncryption" (encryption_params name sse) (inr r2);
              Log (sse_line this)])
        end
    end
  else (inr tt, w, []).
Proof. intros Hdb. unfold_names. exec; reflexivity. Qed.

Lemma reconcile_versioning_run this w :
  nullish (deploymentBucket this) = false ->
  reconcile_versioning this w =
  let name := bucket_name this in
  let versioning := desired_versioning this in
  match request "S3" "getBucketVersioning" (bucket_params name) w with
  | (out, w1) =>
      let probe := request_call "getBucketVersioning" (bucket_params name) out in
      if nullish (config this) then (inl (cannot_read "versioning"), w1, [probe])
      else if loose_neq_bool (observed_enabled out) versioning then
        match request "S3" "putBucketVersioning" (versioning_params name versioning) w1 with
        | (inl e2, w2) =>
            (inl e2, w2,
             [probe;
              request_call "putBucketVersioning" (versioning_params name versioning) (inl e2)])
        | (inr r2, w2) =>
            (inr tt, w2,
             [probe;
              request_call "putBucketVersioning" (versioning_params name versioning) (inr r2);
              Log (versioning_line versioning)])
        end
      else (inr tt, w1, [probe])
  end.
Proof.
  intros Hdb. unfold versioning_line. unfold_names.
  destruct (nullish (config this)) eqn:Hcfg; exec; reflexivity.
Qed.

Lemma reconcile_acceleration_run this w :
  nullish (deploymentBucket this) = false ->
  reconcile_acceleration this w =
  let name := bucket_name this in
  let accelerate := desired_acceleration this in
  match request "S3" "getBucketAccelerateConfiguration" (bucket_params name) w with
  | (out, w1) =>
      let probe :=
        request_call "getBucketAccelerateConfiguration" (bucket_params name) out in
      if nullish (config this) then (inl (cannot_read "accelerate"), w1, [probe])
      else if loose_neq_bool (observed_enabled out) accelerate then
        match request "S3" "putBucketAccelerateConfiguration"
                (acceleration_params name accelerate) w1 with
        | (inl e2, w2) =>
            (inl e2, w2,
             [probe;
              request_call "putBucketAccelerateConfiguration"
                (acceleration_params name accelerate) (inl e2)])
        | (inr r2, w2) =>
            (inr tt, w2,
             [probe;
              request_call "putBucketAccelerateConfiguration"
                (acceleration_params name accelerate) (inr r2);
              Log (acceleration_line accelerate)])
        end
      else (inr tt, w1, [probe])
  end.
Proof.
  intros Hdb. unfold acceleration_line. unfold_names.
  destruct (nullish (config this)) eqn:Hcfg; exec; reflexivity.
Qed.

Lemma apply_policy_run this w :
  nullish (deploymentBucket this) = false ->
  apply_policy this w =
  let name := bucket_name this in
  let policy := desired_policy this in
  if nullish (config this) then (inl (cannot_read "policy"), w, [])
  else if truthy policy then
    match request "S3" "putBucketPolicy" (policy_params name policy) w with
    | (inl e, w1) =>
        (inl e, w1, [request_call "putBucketPolicy" (policy_params name policy) (inl e)])
    | (inr r, w1) =>
        (inr tt, w1, [request_call "putBucketPolicy" (policy_params name policy) (inr r);
                      Log "Applied deployment bucket policy"])
    end
  else (inr tt, w, []).
Proof.
  intros Hdb. unfold_names.
  destruct (nullish (config this)) eqn:Hcfg; exec; reflexivity.
Qed.


(** *** The sequence of the five statements *)

Lemma applyDeploymentBucket_run this w :
  applyDeploymentBucket this w =
  match reconcile this w with
  | (inl e, w1, t) => (inr tt, w1, (t ++ [ConsoleError (chalk_red (error_block e))])%list)
  | (inr u, w1, t) => (inr u, w1, t)
  end.
Proof.
  unfold applyDeploymentBucket, try_catch, console_error, emit.
  destruct (reconcile this w) as [[[e|u] w1] t]; reflexivity.
Qed.

Lemma reconcile_reconciled this w :
  reconciled this w (result_of (reconcile this w)) (world_of (reconcile this w))
    (trace_of (reconcile this w)).
Proof.
  unfold reconcile, bind, result_of, world_of, trace_of.
  destruct (ensure_bucket this w) as [[[e1|[]] w1] t1] eqn:E1; simpl.
  { now apply stops_at_bucket. }
  destruct (reconcile_encryption this w1) as [[[e2|[]] w2] t2] eqn:E2; simpl.
  { now eapply stops_at_encryption; eauto. }
  destruct (reconcile_versioning this w2) as [[[e3|[]] w3] t3] eqn:E3; simpl.
  { now eapply stops_at_versioning; eauto. }
  destruct (reconcile_acceleration this w3) as [[[e4|[]] w4] t4] eqn:E4; simpl.
  { now eapply stops_at_acceleration; eauto. }
  destruct (apply_policy this w4) as [[r5 w5] t5] eqn:E5; simpl.
  eapply reaches_policy; eauto.
Qed.

(** Reading one statement off its equation, case by case. *)
Ltac step_cases E :=
  first [ rewrite ensure_bucket_run in E by assumption
        | rewrite reconcile_encryption_run in E by assumption
        | rewrite reconcile_versioning_run in E by assumption
        | rewrite reconcile_acceleration_run in E by assumption
        | rewrite apply_policy_run in E by assumption ];
  cbv zeta in E;
  repeat match type of E with
    | context [match request ?s ?o ?p ?w with _ => _ end] =>
        destruct (request s o p w) as [[?e|?r] ?w] eqn:?
    | context [match sdk_waitFor ?s ?p ?w with _ => _ end] =>
        destruct (sdk_waitFor s p w) as [[?e|?r] ?w] eqn:?
    | context [if ?b then _ else _] => destruct b eqn:?
    end;
  inversion E; subst; clear E.


(** *** What every statement guarantees *)

Lemma reconcile_nullish this w :
  nullish (deploymentBucket this) = true ->
  reconcile this w = (inl (cannot_read "name"), w, []).
Proof.
  intros Hdb. unfold reconcile, bind. rewrite (ensure_bucket_nullish _ _ Hdb). reflexivity.
Qed.

Ltac ends_after pre :=
  exists pre; do 2 eexists; split; [reflexivity | split; [cbn; tauto | reflexivity]].

Ltac ends_here :=
  right; unfold ends_in_failure, request_call;
  match goal with
  | |- exists _ _ _, [?a] = _ /\ _ => ends_after (@nil effect)
  | |- exists _ _ _, [?a; _] = _ /\ _ => ends_after [a]
  | |- exists _ _ _, [?a; ?b; _] = _ /\ _ => ends_after [a; b]
  end.

Ltac discipline :=
  split; [reflexivity | first [reflexivity | left; reflexivity | ends_here]].

Lemma ensure_bucket_sound this w r w1 t :
  nullish (deploymentBucket this) = false ->
  ensure_bucket this w = (r, w1, t) ->
  ops_within ensure_ops t = true /\ disciplined r t.
Proof. intros Hdb E. step_cases E; (split; [reflexivity | discipline]). Qed.

Lemma reconcile_encryption_sound this w r w1 t :
  nullish (deploymentBucket this) = false ->
  reconcile_encryption this w = (r, w1, t) ->
  ops_within encryption_ops t = true /\ disciplined r t.
Proof. intros Hdb E. step_cases E; (split; [reflexivity | discipline]). Qed.

Lemma reconcile_versioning_sound this w r w1 t :
  nullish (deploymentBucket this) = false ->
  reconcile_versioning this w = (r, w1, t) ->
  ops_within versioning_ops t = true /\ disciplined r t.
Proof. intros Hdb E. step_cases E; (split; [reflexivity | discipline]). Qed.

Lemma reconcile_acceleration_sound this w r w1 t :
  nullish (deploymentBucket this) = false ->
  reconcile_acceleration this w = (r, w1, t) ->
  ops_within acceleration_ops t = true /\ disciplined r t.
Proof. intros Hdb E. step_cases E; (split; [reflexivity | discipline]). Qed.

Lemma apply_policy_sound this w r w1 t :
  nullish (deploymentBucket this) = false ->
  apply_policy this w = (r, w1, t) ->
  ops_within policy_ops t = true /\ disciplined r t.
Proof. intros Hdb E. step_cases E; (split; [reflexivity | discipline]). Qed.


Lemma disciplined_seq r t1 t2 :
  disciplined (inr tt) t1 -> disciplined r t2 -> disciplined r (t1 ++ t2).
Proof.
  intros [Hc1 Hf1] [Hc2 Hf2]. split.
  - rewrite console_errors_app, Hc1, Hc2. reflexivity.
  - destruct r as [e|u].
    + destruct Hf2 as [Hf2|(pre & op & params & -> & Hop & Hpre)].
      * left. rewrite failure_free_app, Hf1, Hf2. reflexivity.
      * right. exists (t1 ++ pre)%list, op, params. repeat split.
        -- rewrite app_assoc. reflexivity.
        -- exact Hop.
        -- rewrite failure_free_app, Hf1, Hpre. reflexivity.
    + rewrite failure_free_app, Hf1, Hf2. reflexivity.
Qed.

Lemma reconcile_disciplined this w :
  disciplined (result_of (reconcile this w)) (trace_of (reconcile this w)).
Proof.
  destruct (nullish (deploymentBucket this)) eqn:Hdb.
  { rewrite (reconcile_nullish _ _ Hdb). split; [reflexivity | left; reflexivity]. }
  destruct (reconcile_reconciled this w)
    as [e w1 t1 E1|e w1 t1 w2 t2 E1 E2|e w1 t1 w2 t2 w3 t3 E1 E2 E3
       |e w1 t1 w2 t2 w3 t3 w4 t4 E1 E2 E3 E4
       |r w1 t1 w2 t2 w3 t3 w4 t4 w5 t5 E1 E2 E3 E4 E5].
  all: repeat match goal with
    | E : ensure_bucket _ _ = _ |- _ =>
        apply (ensure_bucket_sound _ _ _ _ _ Hdb) in E as [_ ?]
    | E : reconcile_encryption _ _ = _ |- _ =>
        apply (reconcile_encryption_sound _ _ _ _ _ Hdb) in E as [_ ?]
    | E : reconcile_versioning _ _ = _ |- _ =>
        apply (reconcile_versioning_sound _ _ _ _ _ Hdb) in E as [_ ?]
    | E : reconcile_acceleration _ _ = _ |- _ =>
        apply (reconcile_acceleration_sound _ _ _ _ _ Hdb) in E as [_ ?]
    | E : apply_policy _ _ = _ |- _ =>
        apply (apply_policy_sound _ _ _ _ _ Hdb) in E as [_ ?]
    end.
  all: repeat (apply disciplined_seq; [assumption|]); assumption.
Qed.

Lemma In_mutation_failed op params (e : exn) :
  In op mutation_ops -> failed_mutation (Request "S3" op params (inl e)) = true.
Proof.
  intros Hop. unfold failed_mutation, one_of. simpl op_name. simpl ev_rejected.
  rewrite andb_true_r. apply existsb_exists. exists op. split; [exact Hop|].
  apply String.eqb_refl.
Qed.

Lemma failure_free_split t pre op params (e : exn) post :
  failure_free t = true ->
  t = (pre ++ request_call op params (inl e) :: post)%list ->
  In op mutation_ops -> False.
Proof.
  intros Hfree -> Hop. unfold failure_free in Hfree.
  rewrite calls_app in Hfree. simpl in Hfree.
  rewrite existsb_app in Hfree. simpl in Hfree.
  rewrite (In_mutation_failed _ _ _ Hop) in Hfree. simpl in Hfree.
  rewrite orb_true_r in Hfree. discriminate.
Qed.

Lemma ends_in_failure_split e0 t pre op params (e : exn) post :
  ends_in_failure e0 t ->
  t = (pre ++ request_call op params (inl e) :: post)%list ->
  In op mutation_ops ->
  post = [] /\ e = e0.
Proof.
  intros (pre0 & op0 & params0 & -> & Hop0 & Hfree) Heq Hop.
  destruct post as [|y post0].
  - apply app_inj_tail in Heq as [_ Heq].
    unfold request_call in Heq. inversion Heq. split; reflexivity.
  - exfalso.
    destruct (@exists_last _ (y :: post0)) as (post' & x & Hx); [discriminate|].
    rewrite Hx in Heq.
    change (pre ++ request_call op params (inl e) :: post' ++ [x])%list
      with (pre ++ (request_call op params (inl e) :: post') ++ [x])%list in Heq.
    rewrite app_assoc in Heq. apply app_inj_tail in Heq as [Heq _].
    eapply failure_free_split; eassumption.
Qed.


(** *** Taking a run apart *)

Lemma applyDeploymentBucket_calls this w :
  calls (trace_of (applyDeploymentBucket this w)) = calls (trace_of (reconcile this w)).
Proof.
  rewrite applyDeploymentBucket_run.
  destruct (reconcile this w) as [[[e|u] w1] t]; unfold trace_of; simpl; [|reflexivity].
  rewrite calls_app. simpl. apply app_nil_r.
Qed.

Lemma applyDeploymentBucket_count p this w :
  count p (trace_of (applyDeploymentBucket this w)) = count p (trace_of (reconcile this w)).
Proof. unfold count. rewrite applyDeploymentBucket_calls. reflexivity. Qed.


(** The operations each statement of a run is made of. *)
Ltac note_ops Hdb :=
  repeat match goal with
    | E : ensure_bucket _ _ = (_, _, ?t) |- _ =>
        lazymatch goal with
        | _ : ops_within ensure_ops t = true |- _ => fail
        | _ => pose proof (ensure_bucket_sound _ _ _ _ _ Hdb E) as [? ?]
        end
    | E : reconcile_encryption _ _ = (_, _, ?t) |- _ =>
        lazymatch goal with
        | _ : ops_within encryption_ops t = true |- _ => fail
        | _ => pose proof (reconcile_encryption_sound _ _ _ _ _ Hdb E) as [? ?]
        end
    | E : reconcile_versioning _ _ = (_, _, ?t) |- _ =>
        lazymatch goal with
        | _ : ops_within versioning_ops t = true |- _ => fail
        | _ => pose proof (reconcile_versioning_sound _ _ _ _ _ Hdb E) as [? ?]
        end
    | E : reconcile_acceleration _ _ = (_, _, ?t) |- _ =>
        lazymatch goal with
        | _ : ops_within acceleration_ops t = true |- _ => fail
        | _ => pose proof (reconcile_acceleration_sound _ _ _ _ _ Hdb E) as [? ?]
        end
    | E : apply_policy _ _ = (_, _, ?t) |- _ =>
        lazymatch goal with
        | _ : ops_within policy_ops t = true |- _ => fail
        | _ => pose proof (apply_policy_sound _ _ _ _ _ Hdb E) as [? ?]
        end
    end.

(** Drops from the goal what is said of statements that make no such
    call. *)
Ltac drop_foreign :=
  repeat match goal with
    | H : ops_within _ ?t = true |- context [existsb ?p (calls ?t)] =>
        rewrite (ops_within_existsb _ p t H) by by_names
    | H : ops_within _ ?t = true |- context [count ?p ?t] =>
        rewrite (ops_within_count _ p t H) by by_names
    end.

Ltac spread :=
  rewrite ?calls_app, ?existsb_app, ?count_app, ?ops_within_app, ?forallb_app.

(** The cases of a run whose [deploymentBucket] is an object. *)
Ltac run_cases this w Hdb :=
  destruct (reconcile_reconciled this w)
    as [?e ?w ?t E1|?e ?w ?t ?w ?t E1 E2|?e ?w ?t ?w ?t ?w ?t E1 E2 E3
       |?e ?w ?t ?w ?t ?w ?t ?w ?t E1 E2 E3 E4
       |?r ?w ?t ?w ?t ?w ?t ?w ?t ?w ?t E1 E2 E3 E4 E5];
  note_ops Hdb.

Lemma reconcile_ops this w : ops_within all_ops (trace_of (reconcile this w)) = true.
Proof.
  destruct (nullish (deploymentBucket this)) eqn:Hdb.
  { rewrite (reconcile_nullish _ _ Hdb). reflexivity. }
  run_cases this w Hdb; spread.
  all: repeat match goal with
    | H : ops_within _ ?t = true |- context [ops_within all_ops ?t] =>
        rewrite (ops_within_incl _ all_ops t H) by by_names
    end.
  all: reflexivity.
Qed.

Lemma ops_within_Forall names (Q : event -> Prop) t :
  ops_within names t = true ->
  (forall ev, one_of names ev = true -> Q ev) ->
  Forall Q (calls t).
Proof.
  unfold ops_within. intros Hall HQ. apply Forall_forall. intros ev Hin.
  apply HQ. exact (proj1 (forallb_forall _ _) Hall ev Hin).
Qed.

Lemma failure_free_earlier t : failure_free t = true -> earlier_failure t = false.
Proof.
  unfold failure_free, earlier_failure. intros H. apply negb_true_iff in H.
  induction (calls t) as [|ev l IH]; simpl in *; [reflexivity|].
  apply orb_false_iff in H as [Hev Hl]. rewrite Hev, (IH Hl). reflexivity.
Qed.

Lemma earlier_failure_app t1 t2 :
  earlier_failure (t1 ++ t2) = earlier_failure t1 || earlier_failure t2.
Proof. unfold earlier_failure. rewrite calls_app, existsb_app. reflexivity. Qed.

Lemma applyDeploymentBucket_world this w :
  world_of (applyDeploymentBucket this w) = world_of (reconcile this w).
Proof.
  rewrite applyDeploymentBucket_run.
  destruct (reconcile this w) as [[[e|u] w1] t]; reflexivity.
Qed.

Lemma applyDeploymentBucket_console this w :
  console_errors (trace_of (applyDeploymentBucket this w))
  = match result_of (reconcile this w) with
    | inl e => [chalk_red (error_block e)]
    | inr _ => []
    end.
Proof.
  rewrite applyDeploymentBucket_run.
  pose proof (reconcile_disciplined this w) as [Hquiet _].
  destruct (reconcile this w) as [[[e|u] w1] t];
    unfold result_of, trace_of in *; simpl in *; [|exact Hquiet].
  rewrite console_errors_app, Hquiet. reflexivity.
Qed.

(* ===================================================================== *)
(** ** The error boundary *)
(* ===================================================================== *)

(** C4.  Whatever happens inside the [try] block, [applyDeploymentBucket]
    resolves: its promise never rejects.  The error block is printed exactly
    when a statement threw, once, with the message of what was thrown.  And
    when a mutation (a Create in particular) is rejected, that call is the
    last thing the run does before printing the block: no later statement
    runs, nothing was printed before. *)
Theorem failure_is_reported_once_and_contained this w :
  let run := applyDeploymentBucket this w in
  result_of run = inr tt
  /\ console_errors (trace_of run) =
     match result_of (reconcile this w) with
     | inl e => [chalk_red (error_block e)]
     | inr _ => []
     end
  /\ (forall pre op params e post,
        trace_of run = (pre ++ request_call op params (inl e) :: post)%list ->
        In op mutation_ops ->
        post = [ConsoleError (chalk_red (error_block e))]
        /\ console_errors pre = []).
Proof.
  cbv zeta. rewrite applyDeploymentBucket_run.
  pose proof (reconcile_disciplined this w) as [Hquiet Hfail].
  destruct (reconcile this w) as [[[e0|[]] w1] t];
    unfold result_of, trace_of in *; simpl in *.
  - split; [reflexivity|]. split.
    { rewrite console_errors_app, Hquiet. reflexivity. }
    intros pre op params e post Heq Hop.
    destruct post as [|y post0].
    { apply app_inj_tail in Heq as [_ Heq]. discriminate Heq. }
    destruct (@exists_last _ (y :: post0)) as (post' & x & Hx); [discriminate|].
    rewrite Hx in Heq |- *.
    change (pre ++ request_call op params (inl e) :: post' ++ [x])%list
      with (pre ++ (request_call op params (inl e) :: post') ++ [x])%list in Heq.
    rewrite app_assoc in Heq. apply app_inj_tail in Heq as [Heq <-].
    assert (Hpre : console_errors pre = []).
    { rewrite Heq, console_errors_app in Hquiet.
      apply app_eq_nil in Hquiet as [Hpre _]. exact Hpre. }
    destruct Hfail as [Hfree|Hends].
    + exfalso. eapply failure_free_split; eassumption.
    + destruct (ends_in_failure_split _ _ _ _ _ _ _ Hends Heq Hop) as [-> ->].
      split; [reflexivity | exact Hpre].
  - split; [reflexivity|]. split; [exact Hquiet|].
    intros pre op params e post Heq Hop. exfalso.
    eapply failure_free_split; eassumption.
Qed.

(* ===================================================================== *)
(** ** Encryption *)
(* ===================================================================== *)


(* ===================================================================== *)
(** ** Existence *)
(* ===================================================================== *)

Lemma facet_ops_only names t :
  ops_within names t = true ->
  (forall ev, one_of names ev = true -> one_of facet_ops ev = true) ->
  forallb (one_of facet_ops) (calls t) = true.
Proof. intros H Hincl. exact (ops_within_incl _ _ _ H Hincl). Qed.

Ltac facets_only :=
  rewrite ?forallb_app;
  repeat match goal with
    | H : ops_within _ ?t = true |- context [forallb (one_of facet_ops) (calls ?t)] =>
        rewrite (facet_ops_only _ t H) by by_names
    end;
  reflexivity.

(** C2, as the code has it.  A run starts with the existence probe.  When
    the probe resolves, no [createBucket] and no wait follow: every later
    call is an operation on a facet.  When it is rejected, the next call is
    the one [createBucket]; if that is rejected the run makes no further
    call (no wait either), and if it resolves the next call is the one wait
    for ['bucketExists'], and after it come operations on facets only.  In
    numbers: [createBucket] is called once when the probe was rejected and
    never otherwise, and the wait happens once when a [createBucket]
    resolved and never otherwise. *)
Theorem bucket_created_then_awaited_when_absent this w :
  let t := trace_of (applyDeploymentBucket this w) in
  let name := bucket_name this in
  (calls t = []
   \/ exists out rest, calls t = Request "S3" "headBucket" (bucket_params name) out :: rest)
  /\ (forall r rest,
        calls t = Request "S3" "headBucket" (bucket_params name) (inr r) :: rest ->
        forallb (one_of facet_ops) rest = true)
  /\ (forall e rest,
        calls t = Request "S3" "headBucket" (bucket_params name) (inl e) :: rest ->
        exists out rest',
          rest = Request "S3" "createBucket" (create_params name) out :: rest'
          /\ match out with
             | inl _ => rest' = []
             | inr _ =>
                 exists waited rest'',
                   rest' = WaitFor "bucketExists" (bucket_params name) waited :: rest''
                   /\ forallb (one_of facet_ops) rest'' = true
             end)
  /\ count (is_request "createBucket") t
     = (if existsb (rejected_request "headBucket") (calls t) then 1 else 0)
  /\ count is_wait t
     = (if existsb (resolved_request "createBucket") (calls t) then 1 else 0).
Proof.
  cbv zeta. rewrite !applyDeploymentBucket_count, applyDeploymentBucket_calls.
  destruct (nullish (deploymentBucket this)) eqn:Hdb.
  { rewrite (reconcile_nullish _ _ Hdb). cbn.
    repeat split; try (left; reflexivity); intros; discriminate. }
  run_cases this w Hdb; step_cases E1; spread; drop_foreign;
    unfold request_call, wait_call; cbn -[facet_ops].
  all: split; [right; eauto|].
  all: split; [intros ? ? Heq; inversion Heq; subst; try facets_only|].
  all: split; [|split; reflexivity].
  all: intros ? ? Heq; inversion Heq; subst.
  all: do 2 eexists; split; [reflexivity|]; try reflexivity.
  all: do 2 eexists; split; [reflexivity|]; facets_only.
Qed.

(* ===================================================================== *)
(** ** Policy *)
(* ===================================================================== *)

Ltac quiet_so_far :=
  repeat match goal with
    | H : disciplined (inr _) ?t |- context [earlier_failure ?t] =>
        rewrite (failure_free_earlier t (proj2 H))
    end.

(** C5, as the code has it.  [putBucketPolicy] is called once in a run whose
    [policy] is set and that reaches the policy statement, that is in which
    [deploymentBucket] could be read and no earlier mutation was rejected;
    in every other run it is not called.  When it is called, it is with the
    bucket name and [JSON.stringify(policy)], and no run ever reads the
    policy of the bucket. *)
Theorem policy_applied_once_when_reached this w :
  let t := trace_of (applyDeploymentBucket this w) in
  count (is_request "putBucketPolicy") t
  = (if truthy (desired_policy this)
        && negb (nullish (deploymentBucket this))
        && negb (earlier_failure t)
     then 1 else 0)
  /\ Forall
       (fun ev =>
          is_request "putBucketPolicy" ev = true ->
          exists out,
            ev = Request "S3" "putBucketPolicy"
                   (policy_params (bucket_name this) (desired_policy this)) out)
       (calls t)
  /\ count (is_request "getBucketPolicy") t = 0.
Proof.
  cbv zeta. unfold earlier_failure at 1.
  rewrite !applyDeploymentBucket_count, applyDeploymentBucket_calls.
  fold (earlier_failure (trace_of (reconcile this w))).
  pose proof (reconcile_ops this w) as Hall.
  rewrite (ops_within_count _ (is_request "getBucketPolicy") _ Hall) by by_names.
  clear Hall.
  destruct (nullish (deploymentBucket this)) eqn:Hdb.
  { rewrite (reconcile_nullish _ _ Hdb). cbn. rewrite andb_false_r.
    repeat split. constructor. }
  cbn [negb]. rewrite andb_true_r.
  assert (Hforeign : forall names t,
             ops_within names t = true ->
             (forall ev, one_of names ev = true -> is_request "putBucketPolicy" ev = false) ->
             Forall
               (fun ev =>
                  is_request "putBucketPolicy" ev = true ->
                  exists out,
                    ev = Request "S3" "putBucketPolicy"
                           (policy_params (bucket_name this) (desired_policy this)) out)
               (calls t)).
  { intros names t Hops Hno. apply (ops_within_Forall names _ t Hops).
    intros ev Hev Hput. rewrite (Hno ev Hev) in Hput. discriminate. }
  run_cases this w Hdb; rewrite ?earlier_failure_app; spread; drop_foreign; quiet_so_far;
    (split; [|split; [|reflexivity]]).
  all: rewrite ?Forall_app.
  all: repeat match goal with
    | |- _ /\ _ => split
    | H : ops_within _ ?t = true |- Forall _ (calls ?t) =>
        apply (Hforeign _ t H); by_names
    end.
  all: match goal with
    | E : apply_policy _ _ = _ |- _ => step_cases E
    | E : reconcile_acceleration _ _ = _ |- _ => step_cases E
    | E : reconcile_versioning _ _ = _ |- _ => step_cases E
    | E : reconcile_encryption _ _ = _ |- _ => step_cases E
    | E : ensure_bucket _ _ = _ |- _ => step_cases E
    end.
  all: unfold desired_policy in *;
    repeat match goal with
      | H : nullish (config _) = true |- _ =>
          rewrite (prop_nullish _ "policy" H) in *
      | H : truthy _ = _ |- _ => rewrite H in *
      end.
  all: try reflexivity.
  all: try (cbn; repeat constructor; intros _; eexists; reflexivity).
  all: try (cbn; repeat constructor; intros; discriminate).
  all: cbn; rewrite ?orb_true_r, ?andb_false_r; reflexivity.
Qed.

(* ===================================================================== *)
(** ** The poll *)
(* ===================================================================== *)

Ltac no_failed_wait :=
  rewrite ?existsb_app;
  repeat match goal with
    | H : ops_within _ ?t = true |- context [existsb failed_wait ?t] =>
        rewrite (ops_no_failed_wait _ t H) by reflexivity
    end;
  reflexivity.

(** C8.  A poll that fails makes [waitFor] log the failure and answer
    [false]; it does not throw.  And in a run, a failed poll is followed by
    that log line and then by the probe that opens the next statement (the
    encryption probe when [serverSideEncryption] is set, the versioning
    probe otherwise): the run goes on. *)
Theorem wait_failure_is_logged_and_run_continues this name state w :
  (forall e w1,
     sdk_waitFor state (bucket_params name) w = (inl e, w1) ->
     waitFor name state w
     = (inr false, w1,
        [Call (WaitFor state (bucket_params name) (inl e));
         Log (wait_failure_line state e)]))
  /\ (forall pre st params e post,
        trace_of (applyDeploymentBucket this w)
        = (pre ++ Call (WaitFor st params (inl e)) :: post)%list ->
        exists op out rest,
          post = Log (wait_failure_line "bucketExists" e)
                 :: request_call op (bucket_params (bucket_name this)) out :: rest
          /\ (op = "getBucketEncryption" \/ op = "getBucketVersioning")).
Proof.
  split.
  { intros e w1 Hwait. rewrite waitFor_run, Hwait. reflexivity. }
  intros pre st params e post Heq.
  assert (Hbody : exists tail,
             trace_of (applyDeploymentBucket this w)
             = (trace_of (reconcile this w) ++ tail)%list
             /\ existsb failed_wait tail = false).
  { rewrite applyDeploymentBucket_run.
    destruct (reconcile this w) as [[[e0|u] w1] t]; unfold trace_of; simpl.
    - eexists. split; reflexivity.
    - exists []. rewrite app_nil_r. split; reflexivity. }
  destruct Hbody as (tail & Hbody & Htail). rewrite Hbody in Heq. clear Hbody.
  destruct (nullish (deploymentBucket this)) eqn:Hdb.
  { exfalso. rewrite (reconcile_nullish _ _ Hdb) in Heq. simpl in Heq.
    exact (no_split failed_wait _ _ _ _ Heq Htail eq_refl). }
  run_cases this w Hdb; step_cases E1.
  all: try (exfalso; refine (no_split failed_wait _ _ _ _ Heq _ eq_refl);
            rewrite ?existsb_app, Htail; simpl;
            rewrite ?orb_false_r; no_failed_wait).
  all: repeat rewrite <- app_assoc in Heq; simpl in Heq.
  all: match type of Heq with
       | (?a :: ?b :: ?c :: ?x :: ?back = _) =>
           apply (split_at_unique failed_wait [a; b; c] x back) in Heq
             as (-> & Hx & ->);
           [ | reflexivity
             | simpl; rewrite ?existsb_app, Htail; simpl;
               rewrite ?orb_false_r; no_failed_wait
             | reflexivity ]
       end.
  all: unfold wait_call in Hx; inversion Hx; subst; clear Hx.
  all: step_cases E2.
  all: try (eexists _, _, _; split; [reflexivity | left; reflexivity]).
  all: step_cases E3.
  all: eexists _, _, _; split; [reflexivity | right; reflexivity].
Qed.

(* ===================================================================== *)
(** ** Versioning and acceleration *)
(* ===================================================================== *)

Section Convergence.
Variable this : plugin.
Hypothesis Hdb : nullish (deploymentBucket this) = false.
Hypothesis Hfaithful : faithful (bucket_name this).

Lemma versioning_kept_after service operation params w out w1 :
  request service operation params w = (out, w1) ->
  operation <> "putBucketVersioning" ->
  versioning_observed (bucket_name this) w1 = versioning_observed (bucket_name this) w.
Proof.
  intros Hreq Hop.
  rewrite <- (@versioning_kept _ _ _ Hfaithful service operation params w Hop), Hreq.
  reflexivity.
Qed.

Lemma acceleration_kept_after service operation params w out w1 :
  request service operation params w = (out, w1) ->
  operation <> "putBucketAccelerateConfiguration" ->
  acceleration_observed (bucket_name this) w1 = acceleration_observed (bucket_name this) w.
Proof.
  intros Hreq Hop.
  rewrite <- (@acceleration_kept _ _ _ Hfaithful service operation params w Hop), Hreq.
  reflexivity.
Qed.

Lemma versioning_kept_after_wait state params w out w1 :
  sdk_waitFor state params w = (out, w1) ->
  versioning_observed (bucket_name this) w1 = versioning_observed (bucket_name this) w.
Proof.
  intros Hwait.
  rewrite <- (@versioning_kept_by_wait _ _ _ Hfaithful state params w), Hwait. reflexivity.
Qed.

Lemma acceleration_kept_after_wait state params w out w1 :
  sdk_waitFor state params w = (out, w1) ->
  acceleration_observed (bucket_name this) w1 = acceleration_observed (bucket_name this) w.
Proof.
  intros Hwait.
  rewrite <- (@acceleration_kept_by_wait _ _ _ Hfaithful state params w), Hwait. reflexivity.
Qed.

(** Walks the observation back along the calls of a statement. *)
Ltac walk_back :=
  repeat match goal with
    | H : request ?s ?op ?p ?w = (?out, ?w1)
      |- context [versioning_observed _ ?w1] =>
        rewrite (versioning_kept_after s op p w out w1 H ltac:(discriminate))
    | H : request ?s ?op ?p ?w = (?out, ?w1)
      |- context [acceleration_observed _ ?w1] =>
        rewrite (acceleration_kept_after s op p w out w1 H ltac:(discriminate))
    | H : sdk_waitFor ?s ?p ?w = (?out, ?w1)
      |- context [versioning_observed _ ?w1] =>
        rewrite (versioning_kept_after_wait s p w out w1 H)
    | H : sdk_waitFor ?s ?p ?w = (?out, ?w1)
      |- context [acceleration_observed _ ?w1] =>
        rewrite (acceleration_kept_after_wait s p w out w1 H)
    end.

Lemma ensure_bucket_keeps w r w1 t :
  ensure_bucket this w = (r, w1, t) ->
  versioning_observed (bucket_name this) w1 = versioning_observed (bucket_name this) w
  /\ acceleration_observed (bucket_name this) w1
     = acceleration_observed (bucket_name this) w.
Proof. intros E. step_cases E; walk_back; split; reflexivity. Qed.

Lemma reconcile_encryption_keeps w r w1 t :
  reconcile_encryption this w = (r, w1, t) ->
  versioning_observed (bucket_name this) w1 = versioning_observed (bucket_name this) w
  /\ acceleration_observed (bucket_name this) w1
     = acceleration_observed (bucket_name this) w.
Proof. intros E. step_cases E; walk_back; split; reflexivity. Qed.

Lemma apply_policy_keeps w r w1 t :
  apply_policy this w = (r, w1, t) ->
  versioning_observed (bucket_name this) w1 = versioning_observed (bucket_name this) w
  /\ acceleration_observed (bucket_name this) w1
     = acceleration_observed (bucket_name this) w.
Proof. intros E. step_cases E; walk_back; split; reflexivity. Qed.

Lemma loose_neq_bool_spec b v : loose_neq_bool b (VBool v) = negb (Bool.eqb b v).
Proof. reflexivity. Qed.

Lemma reconcile_versioning_settles v w r w1 t :
  desired_versioning this = VBool v ->
  reconcile_versioning this w = (r, w1, t) ->
  acceleration_observed (bucket_name this) w1 = acceleration_observed (bucket_name this) w
  /\ (r = inr tt -> versioning_observed (bucket_name this) w1 = v)
  /\ (versioning_observed (bucket_name this) w = v ->
      count (is_request "putBucketVersioning") t = 0
      /\ versioning_observed (bucket_name this) w1 = v).
Proof.
  intros Hv E. step_cases E; rewrite ?Hv in *;
    repeat match goal with
      | H : loose_neq_bool _ (VBool _) = _ |- _ => rewrite loose_neq_bool_spec in H
      end.
  all: split; [walk_back; reflexivity|].
  all: match goal with
       | H : request "S3" "getBucketVersioning" _ ?w0 = (?out, _) |- _ =>
           assert (Hseen : versioning_observed (bucket_name this) w0 = observed_enabled out)
             by (unfold versioning_observed; rewrite H; reflexivity)
       end.
  all: split; [intros Hr; try discriminate Hr | intros Hwas].
  all: try (rewrite Hwas in Hseen; rewrite <- Hseen, Bool.eqb_reflx in *; discriminate).
  all: try match goal with
       | H : request "S3" "putBucketVersioning" _ _ = (inr _, _) |- _ =>
           rewrite (@put_versioning_sets _ _ _ Hfaithful _ _ _ _ H); reflexivity
       end.
  all: try (split; [reflexivity|]).
  all: walk_back; rewrite Hseen.
  all: try match goal with
       | H : negb (Bool.eqb _ _) = false |- _ =>
           apply negb_false_iff, Bool.eqb_prop in H; exact H
       end.
  all: congruence.
Qed.


Lemma reconcile_acceleration_settles a w r w1 t :
  desired_acceleration this = VBool a ->
  reconcile_acceleration this w = (r, w1, t) ->
  versioning_observed (bucket_name this) w1 = versioning_observed (bucket_name this) w
  /\ (r = inr tt -> acceleration_observed (bucket_name this) w1 = a)
  /\ (acceleration_observed (bucket_name this) w = a ->
      count (is_request "putBucketAccelerateConfiguration") t = 0
      /\ acceleration_observed (bucket_name this) w1 = a).
Proof.
  intros Ha E. step_cases E; rewrite ?Ha in *;
    repeat match goal with
      | H : loose_neq_bool _ (VBool _) = _ |- _ => rewrite loose_neq_bool_spec in H
      end.
  all: split; [walk_back; reflexivity|].
  all: match goal with
       | H : request "S3" "getBucketAccelerateConfiguration" _ ?w0 = (?out, _) |- _ =>
           assert (Hseen : acceleration_observed (bucket_name this) w0
                           = observed_enabled out)
             by (unfold acceleration_observed; rewrite H; reflexivity)
       end.
  all: split; [intros Hr; try discriminate Hr | intros Hwas].
  all: try (rewrite Hwas in Hseen; rewrite <- Hseen, Bool.eqb_reflx in *; discriminate).
  all: try match goal with
       | H : request "S3" "putBucketAccelerateConfiguration" _ _ = (inr _, _) |- _ =>
           rewrite (@put_acceleration_sets _ _ _ Hfaithful _ _ _ _ H); reflexivity
       end.
  all: try (split; [reflexivity|]).
  all: walk_back; rewrite Hseen.
  all: try match goal with
       | H : negb (Bool.eqb _ _) = false |- _ =>
           apply negb_false_iff, Bool.eqb_prop in H; exact H
       end.
  all: congruence.
Qed.

(** A run that printed no error block leaves both facets as desired. *)
Lemma successful_run_converges v a w :
  desired_versioning this = VBool v ->
  desired_acceleration this = VBool a ->
  console_errors (trace_of (applyDeploymentBucket this w)) = [] ->
  versioning_observed (bucket_name this) (world_of (applyDeploymentBucket this w)) = v
  /\ acceleration_observed (bucket_name this) (world_of (applyDeploymentBucket this w)) = a.
Proof.
  intros Hv Ha Hquiet.
  rewrite applyDeploymentBucket_console in Hquiet. rewrite applyDeploymentBucket_world.
  destruct (reconcile_reconciled this w)
    as [e w1 t1 E1|e w1 t1 w2 t2 E1 E2|e w1 t1 w2 t2 w3 t3 E1 E2 E3
       |e w1 t1 w2 t2 w3 t3 w4 t4 E1 E2 E3 E4
       |r w1 t1 w2 t2 w3 t3 w4 t4 w5 t5 E1 E2 E3 E4 E5];
    try discriminate Hquiet.
  destruct r as [e|[]]; [discriminate Hquiet|].
  destruct (apply_policy_keeps _ _ _ _ E5) as [-> ->].
  destruct (reconcile_acceleration_settles a _ _ _ _ Ha E4) as (-> & Hset & _).
  destruct (reconcile_versioning_settles v _ _ _ _ Hv E3) as (_ & Hsetv & _).
  split; [exact (Hsetv eq_refl) | exact (Hset eq_refl)].
Qed.

(** From a provider state where both facets are as desired, a run puts
    neither. *)
Lemma settled_run_puts_nothing v a w :
  desired_versioning this = VBool v ->
  desired_acceleration this = VBool a ->
  versioning_observed (bucket_name this) w = v ->
  acceleration_observed (bucket_name this) w = a ->
  count (is_request "putBucketVersioning") (trace_of (applyDeploymentBucket this w)) = 0
  /\ count (is_request "putBucketAccelerateConfiguration")
       (trace_of (applyDeploymentBucket this w)) = 0.
Proof.
  intros Hv Ha Hwasv Hwasa. rewrite !applyDeploymentBucket_count.
  run_cases this w Hdb; spread; drop_foreign.
  all: try (split; reflexivity).
  all: destruct (ensure_bucket_keeps _ _ _ _ E1) as [Hv1 Ha1].
  all: destruct (reconcile_encryption_keeps _ _ _ _ E2) as [Hv2 Ha2].
  all: rewrite Hv1 in Hv2; rewrite Ha1 in Ha2; rewrite Hwasv in Hv2; rewrite Hwasa in Ha2.
  all: destruct (reconcile_versioning_settles v _ _ _ _ Hv E3) as (Ha3 & _ & Hnone).
  all: destruct (Hnone Hv2) as [-> Hv3].
  all: try (split; reflexivity).
  all: rewrite Ha2 in Ha3.
  all: destruct (reconcile_acceleration_settles a _ _ _ _ Ha E4) as (_ & _ & Hnonea).
  all: destruct (Hnonea Ha3) as [-> _].
  all: split; reflexivity.
Qed.

End Convergence.

(** What a run observes decides what it puts. *)
Lemma put_iff_observed_differs this v a w :
  desired_versioning this = VBool v ->
  desired_acceleration this = VBool a ->
  let t := trace_of (applyDeploymentBucket this w) in
  existsb (is_request "putBucketVersioning") (calls t)
  = existsb (probe_observed "getBucketVersioning" (negb v)) (calls t)
  /\ existsb (is_request "putBucketAccelerateConfiguration") (calls t)
     = existsb (probe_observed "getBucketAccelerateConfiguration" (negb a)) (calls t).
Proof.
  intros Hv Ha. cbv zeta. rewrite applyDeploymentBucket_calls.
  destruct (nullish (deploymentBucket this)) eqn:Hdb.
  { rewrite (reconcile_nullish _ _ Hdb). split; reflexivity. }
  run_cases this w Hdb; spread; drop_foreign.
  all: try (split; reflexivity).
  all: split.
  all: repeat match goal with
    | E : reconcile_versioning _ _ = (_, _, ?t) |- context [calls ?t] => step_cases E
    | E : reconcile_acceleration _ _ = (_, _, ?t) |- context [calls ?t] => step_cases E
    end.
  all: try (exfalso;
            match goal with
            | H : nullish (config _) = true |- _ =>
                unfold desired_versioning in Hv;
                rewrite (prop_nullish _ "versioning" H) in Hv; discriminate Hv
            end).
  all: rewrite ?Hv, ?Ha in *;
    repeat match goal with
      | H : loose_neq_bool _ (VBool _) = _ |- _ => rewrite loose_neq_bool_spec in H
      end.
  all: cbn in *.
  all: repeat match goal with
    | H : context [status_enabled ?r] |- _ => destruct (status_enabled r)
    end.
  all: destruct v, a; simpl in *; try discriminate; reflexivity.
Qed.

Lemma hasBucketVersioning_observed name w :
  result_of (hasBucketVersioning name w) = inr (versioning_observed name w).
Proof.
  rewrite hasBucketVersioning_run. unfold versioning_observed.
  destruct (request "S3" "getBucketVersioning" (bucket_params name) w); reflexivity.
Qed.

Lemma hasBucketAcceleration_observed name w :
  result_of (hasBucketAcceleration name w) = inr (acceleration_observed name w).
Proof.
  rewrite hasBucketAcceleration_run. unfold acceleration_observed.
  destruct (request "S3" "getBucketAccelerateConfiguration" (bucket_params name) w);
    reflexivity.
Qed.

(** C1, as the code has it.  Let the desired [versioning] be the boolean [v]
    and the desired [accelerate] the boolean [a].  In every run,
    [putBucketVersioning] is called if and only if the versioning probe of
    the run observed the status [negb v], and likewise for acceleration.
    Against a provider that keeps what it is given (a status query answers
    the status last put, and no other call changes it), after a run that
    printed no error block both readers answer the desired value, and a
    second run from there puts neither versioning nor acceleration. *)
Theorem versioning_and_acceleration_converge this v a w :
  desired_versioning this = VBool v ->
  desired_acceleration this = VBool a ->
  let name := bucket_name this in
  let run := applyDeploymentBucket this w in
  let again := applyDeploymentBucket this (world_of run) in
  existsb (is_request "putBucketVersioning") (calls (trace_of run))
  = existsb (probe_observed "getBucketVersioning" (negb v)) (calls (trace_of run))
  /\ existsb (is_request "putBucketAccelerateConfiguration") (calls (trace_of run))
     = existsb (probe_observed "getBucketAccelerateConfiguration" (negb a))
         (calls (trace_of run))
  /\ (faithful name ->
      console_errors (trace_of run) = [] ->
      result_of (hasBucketVersioning name (world_of run)) = inr v
      /\ result_of (hasBucketAcceleration name (world_of run)) = inr a
      /\ count (is_request "putBucketVersioning") (trace_of again) = 0
      /\ count (is_request "putBucketAccelerateConfiguration") (trace_of again) = 0).
Proof.
  intros Hv Ha. cbv zeta.
  destruct (put_iff_observed_differs this v a w Hv Ha) as [Hputv Hputa].
  split; [exact Hputv|]. split; [exact Hputa|].
  intros Hfaithful Hquiet.
  destruct (nullish (deploymentBucket this)) eqn:Hdb.
  { exfalso. rewrite applyDeploymentBucket_console in Hquiet.
    rewrite (reconcile_nullish _ _ Hdb) in Hquiet. discriminate Hquiet. }
  destruct (successful_run_converges this Hdb Hfaithful v a w Hv Ha Hquiet) as [Hnowv Hnowa].
  rewrite hasBucketVersioning_observed, hasBucketAcceleration_observed, Hnowv, Hnowa.
  split; [reflexivity|]. split; [reflexivity|].
  exact (settled_run_puts_nothing this Hdb Hfaithful v a _ Hv Ha Hnowv Hnowa).
Qed.

(* ===================================================================== *)
(** ** The readers *)
(* ===================================================================== *)

(** C6.  [bucketExists] and [hasBucketEncryption] always resolve with a
    boolean: [true] when the query resolved, [false] when it was rejected,
    whatever the rejection was. *)
Theorem probes_answer_false_on_any_failure name w :
  (exists b, result_of (bucketExists name w) = inr b)
  /\ (exists b, result_of (hasBucketEncryption name w) = inr b)
  /\ (forall e w1,
        request "S3" "headBucket" (bucket_params name) w = (inl e, w1) ->
        result_of (bucketExists name w) = inr false)
  /\ (forall r w1,
        request "S3" "headBucket" (bucket_params name) w = (inr r, w1) ->
        result_of (bucketExists name w) = inr true)
  /\ (forall e w1,
        request "S3" "getBucketEncryption" (bucket_params name) w = (inl e, w1) ->
        result_of (hasBucketEncryption name w) = inr false)
  /\ (forall r w1,
        request "S3" "getBucketEncryption" (bucket_params name) w = (inr r, w1) ->
        result_of (hasBucketEncryption name w) = inr true).
Proof.
  rewrite bucketExists_run, hasBucketEncryption_run.
  destruct (request "S3" "headBucket" (bucket_params name) w) as [[e1|r1] w1];
  destruct (request "S3" "getBucketEncryption" (bucket_params name) w) as [[e2|r2] w2];
    unfold result_of; simpl.
  all: repeat split; eauto; intros ? ? Heq; inversion Heq.
Qed.

Lemma status_enabled_iff r : status_enabled r = true <-> Status r = Some "Enabled".
Proof.
  unfold status_enabled. destruct (Status r) as [s|]; [|split; discriminate].
  split.
  - intros H. apply andb_true_iff in H as [_ H]. apply String.eqb_eq in H. congruence.
  - intros H. inversion H. reflexivity.
Qed.

(** C7.  [hasBucketVersioning] always resolves with a boolean, and the
    boolean is [true] exactly when the query resolved and its [Status] is
    the string ['Enabled']: a rejected query, a response without [Status]
    and any other status (['Suspended'] is one) give [false].  The same
    holds of [hasBucketAcceleration]. *)
Theorem status_readers_true_iff_enabled name w :
  (exists b, result_of (hasBucketVersioning name w) = inr b)
  /\ (result_of (hasBucketVersioning name w) = inr true
      <-> exists r w1,
            request "S3" "getBucketVersioning" (bucket_params name) w = (inr r, w1)
            /\ Status r = Some "Enabled")
  /\ (exists b, result_of (hasBucketAcceleration name w) = inr b)
  /\ (result_of (hasBucketAcceleration name w) = inr true
      <-> exists r w1,
            request "S3" "getBucketAccelerateConfiguration" (bucket_params name) w
            = (inr r, w1)
            /\ Status r = Some "Enabled")
  /\ status_enabled {| Status := Some "Suspended" |} = false
  /\ status_enabled {| Status := None |} = false.
Proof.
  rewrite hasBucketVersioning_run, hasBucketAcceleration_run.
  destruct (request "S3" "getBucketVersioning" (bucket_params name) w) as [[e1|r1] w1];
  destruct (request "S3" "getBucketAccelerateConfiguration" (bucket_params name) w)
    as [[e2|r2] w2];
    unfold result_of, observed_enabled; simpl.
  all: repeat match goal with
    | |- _ /\ _ => split
    | |- exists b, inr ?x = inr b => exists x; reflexivity
    | |- _ = _ => reflexivity
    end.
  all: split.
  all: try (intros H; discriminate H).
  all: try (intros (r & w' & Heq & _); discriminate Heq).
  all: try (intros H; injection H as Hs; apply status_enabled_iff in Hs;
            eexists _, _; split; [reflexivity | exact Hs]).
  all: intros (r & w' & Heq & Hs); inversion Heq; subst;
    apply status_enabled_iff in Hs; rewrite Hs; reflexivity.
Qed.

(* ===================================================================== *)
(** ** The calls of a run: what they carry, in which order *)
(* ===================================================================== *)

Lemma ensure_bucket_carries this w r w1 t :
  nullish (deploymentBucket this) = false ->
  ensure_bucket this w = (r, w1, t) -> Forall (carries this) (calls t).
Proof.
  intros Hdb E. step_cases E; unfold request_call, wait_call; cbn [calls app];
    repeat (constructor; [split; reflexivity|]); constructor.
Qed.

Lemma reconcile_encryption_carries this w r w1 t :
  nullish (deploymentBucket this) = false ->
  reconcile_encryption this w = (r, w1, t) -> Forall (carries this) (calls t).
Proof.
  intros Hdb E. step_cases E; unfold request_call, wait_call; cbn [calls app];
    repeat (constructor; [split; reflexivity|]); constructor.
Qed.

Lemma reconcile_versioning_carries this w r w1 t :
  nullish (deploymentBucket this) = false ->
  reconcile_versioning this w = (r, w1, t) -> Forall (carries this) (calls t).
Proof.
  intros Hdb E. step_cases E; unfold request_call, wait_call; cbn [calls app];
    repeat (constructor; [split; reflexivity|]); constructor.
Qed.

Lemma reconcile_acceleration_carries this w r w1 t :
  nullish (deploymentBucket this) = false ->
  reconcile_acceleration this w = (r, w1, t) -> Forall (carries this) (calls t).
Proof.
  intros Hdb E. step_cases E; unfold request_call, wait_call; cbn [calls app];
    repeat (constructor; [split; reflexivity|]); constructor.
Qed.

Lemma apply_policy_carries this w r w1 t :
  nullish (deploymentBucket this) = false ->
  apply_policy this w = (r, w1, t) -> Forall (carries this) (calls t).
Proof.
  intros Hdb E. step_cases E; unfold request_call, wait_call; cbn [calls app];
    repeat (constructor; [split; reflexivity|]); constructor.
Qed.

(** X9.  Every call of a run is about the one bucket of the plugin, and is
    given the parameter object of its operation, built from the desired
    state only: [createBucket] always asks for the ACL ['private'], the
    status put is ['Enabled'] or ['Suspended'] by the truthiness of the
    flag, and [putBucketEncryption] carries the algorithm asked for and no
    KMS key. *)
Theorem every_call_carries_the_desired_state this w :
  Forall
    (fun ev =>
       params_of ev = expected_params this (op_name ev)
       /\ param (params_of ev) "Bucket" = bucket_name this)
    (calls (trace_of (applyDeploymentBucket this w))).
Proof.
  change (Forall (carries this) (calls (trace_of (applyDeploymentBucket this w)))).
  rewrite applyDeploymentBucket_calls.
  destruct (nullish (deploymentBucket this)) eqn:Hdb.
  { rewrite (reconcile_nullish _ _ Hdb). constructor. }
  destruct (reconcile_reconciled this w)
    as [e w1 t1 E1|e w1 t1 w2 t2 E1 E2|e w1 t1 w2 t2 w3 t3 E1 E2 E3
       |e w1 t1 w2 t2 w3 t3 w4 t4 E1 E2 E3 E4
       |r w1 t1 w2 t2 w3 t3 w4 t4 w5 t5 E1 E2 E3 E4 E5].
  all: rewrite ?calls_app;
    repeat match goal with
      | |- Forall _ (_ ++ _) => apply Forall_app; split
      end.
  all: first [ exact (ensure_bucket_carries _ _ _ _ _ Hdb E1)
             | exact (reconcile_encryption_carries _ _ _ _ _ Hdb E2)
             | exact (reconcile_versioning_carries _ _ _ _ _ Hdb E3)
             | exact (reconcile_acceleration_carries _ _ _ _ _ Hdb E4)
             | exact (apply_policy_carries _ _ _ _ _ Hdb E5) ].
Qed.

(** *** Order *)

Lemma subsequence_nil big : subsequence [] big = true.
Proof. destruct big; reflexivity. Qed.

Lemma subsequence_tail big : forall x l, subsequence (x :: l) big = true -> subsequence l big = true.
Proof.
  induction big as [|b big IH]; intros x l H; [discriminate H|].
  cbn [subsequence] in H. destruct (x =? b).
  - destruct l as [|y l']; [reflexivity|].
    cbn [subsequence]. destruct (y =? b); [exact (IH y l' H) | exact H].
  - pose proof (IH x l H) as Hl. destruct l as [|y l']; [reflexivity|].
    cbn [subsequence]. destruct (y =? b); [exact (IH y l' Hl) | exact Hl].
Qed.

Lemma subsequence_skip pre : forall l big, subsequence l big = true -> subsequence l (pre ++ big) = true.
Proof.
  induction pre as [|b pre IH]; intros l big H; [exact H|].
  cbn [app subsequence]. destruct l as [|x l']; [reflexivity|].
  destruct (x =? b).
  - apply IH. exact (subsequence_tail _ _ _ H).
  - apply IH. exact H.
Qed.

Lemma subsequence_app big1 :
  forall l1 l2 big2,
    subsequence l1 big1 = true -> subsequence l2 big2 = true ->
    subsequence (l1 ++ l2) (big1 ++ big2) = true.
Proof.
  induction big1 as [|b big1 IH]; intros l1 l2 big2 H1 H2.
  - destruct l1; [exact H2 | discriminate H1].
  - destruct l1 as [|x l1'].
    + exact (subsequence_skip (b :: big1) _ _ H2).
    + cbn [app subsequence] in *. destruct (x =? b).
      * exact (IH l1' l2 big2 H1 H2).
      * exact (IH (x :: l1') l2 big2 H1 H2).
Qed.

Lemma subsequence_extend big : forall l more, subsequence l big = true -> subsequence l (big ++ more) = true.
Proof.
  intros l more H. rewrite <- (app_nil_r l).
  exact (subsequence_app big l [] more H (subsequence_nil more)).
Qed.

Lemma subsequence_filter x big :
  forall l, subsequence l big = true ->
       length (filter (fun y => y =? x) l) <= length (filter (fun y => y =? x) big).
Proof.
  induction big as [|b big IH]; intros l H.
  - destruct l; [apply le_n | discriminate H].
  - destruct l as [|y l']; [apply Nat.le_0_l|].
    cbn [subsequence] in H. destruct (y =? b) eqn:Hyb.
    + apply String.eqb_eq in Hyb. subst y. cbn [filter].
      pose proof (IH l' H). destruct (b =? x); cbn [length]; lia.
    + pose proof (IH (y :: l') H). cbn [filter] in *.
      destruct (b =? x); cbn [length] in *; lia.
Qed.

Lemma subsequence_length big :
  forall l, subsequence l big = true -> length l <= length big.
Proof.
  induction big as [|b big IH]; intros l H.
  - destruct l; [apply le_n | discriminate H].
  - destruct l as [|y l']; [apply Nat.le_0_l|].
    cbn [subsequence] in H. destruct (y =? b).
    + pose proof (IH l' H). cbn [length]. lia.
    + pose proof (IH (y :: l') H). cbn [length] in *. lia.
Qed.

Lemma all_ops_once x : length (filter (fun y => y =? x) all_ops) <= 1.
Proof.
  cbn [all_ops ensure_ops facet_ops encryption_ops versioning_ops acceleration_ops
       policy_ops app filter].
  repeat match goal with
    | |- context [?s =? x] =>
        let E := fresh "E" in
        destruct (s =? x) eqn:E; [apply String.eqb_eq in E; subst x; cbn|]
    end;
  cbn [length]; lia.
Qed.

Lemma count_op_name op t :
  count (fun ev => op_name ev =? op) t
  = length (filter (fun y => y =? op) (map op_name (calls t))).
Proof.
  unfold count. induction (calls t) as [|ev l IH]; [reflexivity|].
  cbn [filter map]. destruct (op_name ev =? op); cbn [length]; rewrite IH; reflexivity.
Qed.

Lemma op_names_app t1 t2 :
  map op_name (calls (t1 ++ t2)) = (map op_name (calls t1) ++ map op_name (calls t2))%list.
Proof. rewrite calls_app. apply map_app. Qed.

Lemma reconcile_in_order this w :
  subsequence (map op_name (calls (trace_of (reconcile this w)))) all_ops = true.
Proof.
  destruct (nullish (deploymentBucket this)) eqn:Hdb.
  { rewrite (reconcile_nullish _ _ Hdb). reflexivity. }
  unfold all_ops, facet_ops.
  destruct (reconcile_reconciled this w)
    as [e w1 t1 E1|e w1 t1 w2 t2 E1 E2|e w1 t1 w2 t2 w3 t3 E1 E2 E3
       |e w1 t1 w2 t2 w3 t3 w4 t4 E1 E2 E3 E4
       |r w1 t1 w2 t2 w3 t3 w4 t4 w5 t5 E1 E2 E3 E4 E5].
  all: assert (H1 : subsequence (map op_name (calls t1)) ensure_ops = true)
         by (clear - Hdb E1; step_cases E1; reflexivity).
  all: try assert (H2 : subsequence (map op_name (calls t2)) encryption_ops = true)
         by (clear - Hdb E2; step_cases E2; reflexivity).
  all: try assert (H3 : subsequence (map op_name (calls t3)) versioning_ops = true)
         by (clear - Hdb E3; step_cases E3; reflexivity).
  all: try assert (H4 : subsequence (map op_name (calls t4)) acceleration_ops = true)
         by (clear - Hdb E4; step_cases E4; reflexivity).
  all: try assert (H5 : subsequence (map op_name (calls t5)) policy_ops = true)
         by (clear - Hdb E5; step_cases E5; reflexivity).
  all: rewrite ?op_names_app.
  - apply subsequence_extend. exact H1.
  - apply subsequence_app; [exact H1|]. apply subsequence_extend. exact H2.
  - apply subsequence_app; [exact H1|]. apply subsequence_app; [exact H2|].
    apply subsequence_extend. exact H3.
  - apply subsequence_app; [exact H1|]. apply subsequence_app; [exact H2|].
    apply subsequence_app; [exact H3|]. apply subsequence_extend. exact H4.
  - apply subsequence_app; [exact H1|]. apply subsequence_app; [exact H2|].
    apply subsequence_app; [exact H3|]. apply subsequence_app; [exact H4|]. exact H5.
Qed.

(** X10.  The calls of a run keep the order of the statements: their
    operations are, with some left out, [headBucket], [createBucket], the
    wait, then the probe and the put of encryption, of versioning, of
    acceleration, and [putBucketPolicy] last.  So no operation is asked
    twice in a run, a run makes at most ten calls, and a facet is put only
    after the facets before it were dealt with. *)
Theorem calls_keep_the_order_of_the_statements this w :
  let t := trace_of (applyDeploymentBucket this w) in
  subsequence (map op_name (calls t)) all_ops = true
  /\ (forall op, count (fun ev => op_name ev =? op) t <= 1)
  /\ length (calls t) <= 10.
Proof.
  cbv zeta.
  assert (H : subsequence
                (map op_name (calls (trace_of (applyDeploymentBucket this w)))) all_ops
              = true)
    by (rewrite applyDeploymentBucket_calls; apply reconcile_in_order).
  split; [exact H|]. split.
  - intros op. rewrite count_op_name.
    pose proof (subsequence_filter op _ _ H). pose proof (all_ops_once op). lia.
  - pose proof (subsequence_length _ _ H) as Hlen. rewrite length_map in Hlen.
    exact Hlen.
Qed.

(** *** Lines *)

Lemma narrated_app this t1 t2 :
  t1 = flat_map (narrated this) (calls t1) ->
  t2 = flat_map (narrated this) (calls t2) ->
  (t1 ++ t2)%list = flat_map (narrated this) (calls (t1 ++ t2)).
Proof. intros H1 H2. rewrite calls_app, flat_map_app, <- H1, <- H2. reflexivity. Qed.

Lemma reconcile_narrated this w :
  trace_of (reconcile this w)
  = flat_map (narrated this) (calls (trace_of (reconcile this w))).
Proof.
  destruct (nullish (deploymentBucket this)) eqn:Hdb.
  { rewrite (reconcile_nullish _ _ Hdb). reflexivity. }
  destruct (reconcile_reconciled this w)
    as [e w1 t1 E1|e w1 t1 w2 t2 E1 E2|e w1 t1 w2 t2 w3 t3 E1 E2 E3
       |e w1 t1 w2 t2 w3 t3 w4 t4 E1 E2 E3 E4
       |r w1 t1 w2 t2 w3 t3 w4 t4 w5 t5 E1 E2 E3 E4 E5].
  all: assert (H1 : t1 = flat_map (narrated this) (calls t1))
         by (clear - Hdb E1; step_cases E1; reflexivity).
  all: try assert (H2 : t2 = flat_map (narrated this) (calls t2))
         by (clear - Hdb E2; step_cases E2; reflexivity).
  all: try assert (H3 : t3 = flat_map (narrated this) (calls t3))
         by (clear - Hdb E3; step_cases E3; reflexivity).
  all: try assert (H4 : t4 = flat_map (narrated this) (calls t4))
         by (clear - Hdb E4; step_cases E4; reflexivity).
  all: try assert (H5 : t5 = flat_map (narrated this) (calls t5))
         by (clear - Hdb E5; step_cases E5; reflexivity).
  all: repeat (apply narrated_app; [assumption|]); assumption.
Qed.

(** X11.  What a run logs is decided by its calls, and each line comes
    right after the call it reports: after the existence probe the line on
    using or creating the bucket, after a poll that failed its failure,
    after a put that was accepted the line on the change; a probe of a
    facet, a rejected put and [createBucket] are followed by no line.  The
    trace of a run is its calls, each with its line, and then the error
    block of the run if there is one. *)
Theorem log_lines_follow_their_calls this w :
  let t := trace_of (applyDeploymentBucket this w) in
  t = (flat_map (narrated this) (calls t) ++ map ConsoleError (console_errors t))%list.
Proof.
  cbv zeta. rewrite applyDeploymentBucket_console, applyDeploymentBucket_calls.
  rewrite applyDeploymentBucket_run.
  pose proof (reconcile_narrated this w) as Hn.
  destruct (reconcile this w) as [[[e|u] w1] t]; unfold trace_of, result_of in *;
    cbn [fst snd map] in *.
  - rewrite <- Hn. reflexivity.
  - rewrite <- Hn, app_nil_r. reflexivity.
Qed.

(* ===================================================================== *)
(** ** What the calls of a run leave in place *)
(* ===================================================================== *)

(** An observation on the provider state that, once made, no call of the
    plugin undoes, is still made after each statement. *)
Section Monotone.
Variable this : plugin.
Hypothesis Hdb : nullish (deploymentBucket this) = false.
Variable observed : W -> bool.
Hypothesis Hstays : forall operation params w,
  In operation all_ops ->
  observed w = true ->
  observed (snd (request "S3" operation params w)) = true.
Hypothesis Hstays_by_wait : forall state params w,
  observed w = true ->
  observed (snd (sdk_waitFor state params w)) = true.

Lemma stays_after operation params w out w1 :
  request "S3" operation params w = (out, w1) ->
  In operation all_ops ->
  observed w = true ->
  observed w1 = true.
Proof.
  intros Hreq Hop Hwas. pose proof (Hstays operation params w Hop Hwas) as H.
  rewrite Hreq in H. exact H.
Qed.

Lemma stays_after_wait state params w out w1 :
  sdk_waitFor state params w = (out, w1) ->
  observed w = true ->
  observed w1 = true.
Proof.
  intros Hreq Hwas. pose proof (Hstays_by_wait state params w Hwas) as H.
  rewrite Hreq in H. exact H.
Qed.

(** Walks the observation forward along the calls of a statement. *)
Ltac walk_on :=
  repeat match goal with
    | H : request "S3" ?op ?p ?w = (?out, ?w1), Hwas : _ ?w = true |- _ =>
        lazymatch goal with
        | _ : _ w1 = true |- _ => fail
        | _ => pose proof (stays_after op p w out w1 H ltac:(cbn; tauto) Hwas)
        end
    | H : sdk_waitFor ?s ?p ?w = (?out, ?w1), Hwas : _ ?w = true |- _ =>
        lazymatch goal with
        | _ : _ w1 = true |- _ => fail
        | _ => pose proof (stays_after_wait s p w out w1 H Hwas)
        end
    end.

Lemma ensure_bucket_stays w r w1 t :
  ensure_bucket this w = (r, w1, t) -> observed w = true -> observed w1 = true.
Proof. intros E Hwas. step_cases E; walk_on; assumption. Qed.

Lemma reconcile_encryption_stays w r w1 t :
  reconcile_encryption this w = (r, w1, t) -> observed w = true -> observed w1 = true.
Proof. intros E Hwas. step_cases E; walk_on; assumption. Qed.

Lemma reconcile_versioning_stays w r w1 t :
  reconcile_versioning this w = (r, w1, t) -> observed w = true -> observed w1 = true.
Proof. intros E Hwas. step_cases E; walk_on; assumption. Qed.

Lemma reconcile_acceleration_stays w r w1 t :
  reconcile_acceleration this w = (r, w1, t) -> observed w = true -> observed w1 = true.
Proof. intros E Hwas. step_cases E; walk_on; assumption. Qed.

Lemma apply_policy_stays w r w1 t :
  apply_policy this w = (r, w1, t) -> observed w = true -> observed w1 = true.
Proof. intros E Hwas. step_cases E; walk_on; assumption. Qed.

End Monotone.

(* ===================================================================== *)
(** ** Encryption is applied once *)
(* ===================================================================== *)

Section Encryption.
Variable this : plugin.
Hypothesis Hdb : nullish (deploymentBucket this) = false.
Hypothesis Hkeeps : keeps_encryption (bucket_name this).

Lemma probe_resolved_observed w r w1 :
  request "S3" "getBucketEncryption" (bucket_params (bucket_name this)) w = (inr r, w1) ->
  encryption_observed (bucket_name this) w = true.
Proof. intros H. unfold encryption_observed. rewrite H. reflexivity. Qed.

Lemma probe_rejected_observed w e w1 :
  request "S3" "getBucketEncryption" (bucket_params (bucket_name this)) w = (inl e, w1) ->
  encryption_observed (bucket_name this) w = false.
Proof. intros H. unfold encryption_observed. rewrite H. reflexivity. Qed.

(** The encryption statement: when it returns normally with encryption
    asked for, the bucket is encrypted; on an encrypted bucket it puts
    nothing. *)
Lemma reconcile_encryption_settles w r w1 t :
  truthy (desired_sse this) = true ->
  reconcile_encryption this w = (r, w1, t) ->
  (r = inr tt -> encryption_observed (bucket_name this) w1 = true)
  /\ (encryption_observed (bucket_name this) w = true ->
      count (is_request "putBucketEncryption") t = 0
      /\ encryption_observed (bucket_name this) w1 = true).
Proof.
  intros Hsse E.
  pose proof (reconcile_encryption_stays this Hdb _ (@encryption_stays _ _ _ Hkeeps)
                _ _ _ _ E) as Hstays.
  step_cases E; try congruence.
  all: match goal with
       | H : request "S3" "getBucketEncryption" _ _ = (inr _, _) |- _ =>
           pose proof (probe_resolved_observed _ _ _ H)
       | H : request "S3" "getBucketEncryption" _ _ = (inl _, _) |- _ =>
           pose proof (probe_rejected_observed _ _ _ H)
       end.
  all: split; [intros Hr; try discriminate Hr | intros Hwas; try congruence].
  all: try (split; [reflexivity|]).
  all: try (apply Hstays; assumption).
  match goal with
  | H : request "S3" "putBucketEncryption" _ _ = (inr _, _) |- _ =>
      exact (@put_encryption_sets _ _ _ Hkeeps _ _ _ _ H)
  end.
Qed.

Lemma successful_run_encrypts w :
  truthy (desired_sse this) = true ->
  console_errors (trace_of (applyDeploymentBucket this w)) = [] ->
  encryption_observed (bucket_name this) (world_of (applyDeploymentBucket this w)) = true.
Proof.
  intros Hsse Hquiet.
  rewrite applyDeploymentBucket_console in Hquiet. rewrite applyDeploymentBucket_world.
  destruct (reconcile_reconciled this w)
    as [e w1 t1 E1|e w1 t1 w2 t2 E1 E2|e w1 t1 w2 t2 w3 t3 E1 E2 E3
       |e w1 t1 w2 t2 w3 t3 w4 t4 E1 E2 E3 E4
       |r w1 t1 w2 t2 w3 t3 w4 t4 w5 t5 E1 E2 E3 E4 E5];
    try discriminate Hquiet.
  destruct r as [e|[]]; [discriminate Hquiet|].
  pose proof (@encryption_stays _ _ _ Hkeeps) as Hs.
  apply (apply_policy_stays this Hdb _ Hs _ _ _ _ E5).
  apply (reconcile_acceleration_stays this Hdb _ Hs _ _ _ _ E4).
  apply (reconcile_versioning_stays this Hdb _ Hs _ _ _ _ E3).
  exact (proj1 (reconcile_encryption_settles _ _ _ _ Hsse E2) eq_refl).
Qed.

Lemma encrypted_run_puts_nothing w :
  truthy (desired_sse this) = true ->
  encryption_observed (bucket_name this) w = true ->
  count (is_request "putBucketEncryption") (trace_of (applyDeploymentBucket this w)) = 0.
Proof.
  intros Hsse Hwas. rewrite applyDeploymentBucket_count.
  run_cases this w Hdb; spread; drop_foreign.
  all: try reflexivity.
  all: pose proof (ensure_bucket_stays this Hdb _ (@encryption_stays _ _ _ Hkeeps)
                     (@encryption_stays_by_wait _ _ _ Hkeeps) _ _ _ _ E1 Hwas) as Hwas1.
  all: destruct (proj2 (reconcile_encryption_settles _ _ _ _ Hsse E2) Hwas1) as [-> _].
  all: reflexivity.
Qed.

End Encryption.

Lemma hasBucketEncryption_observed name w :
  result_of (hasBucketEncryption name w) = inr (encryption_observed name w).
Proof.
  rewrite hasBucketEncryption_run. unfold encryption_observed.
  destruct (request "S3" "getBucketEncryption" (bucket_params name) w); reflexivity.
Qed.

(** X12.  Encryption is applied once.  With [serverSideEncryption] set,
    against a provider that keeps the encryption it is given (the
    encryption query resolves after an accepted [putBucketEncryption], and
    none of the plugin's calls takes the encryption away), after a run that
    printed no error block the reader [hasBucketEncryption] answers [true],
    and a second run from there makes no [putBucketEncryption] call. *)
Theorem encryption_is_applied_once this w :
  truthy (desired_sse this) = true ->
  keeps_encryption (bucket_name this) ->
  let name := bucket_name this in
  let run := applyDeploymentBucket this w in
  let again := applyDeploymentBucket this (world_of run) in
  console_errors (trace_of run) = [] ->
  result_of (hasBucketEncryption name (world_of run)) = inr true
  /\ count (is_request "putBucketEncryption") (trace_of again) = 0.
Proof.
  intros Hsse Hkeeps. cbv zeta. intros Hquiet.
  assert (Hdb : nullish (deploymentBucket this) = false).
  { destruct (nullish (deploymentBucket this)) eqn:Hn; [|reflexivity].
    unfold desired_sse in Hsse. rewrite (prop_nullish _ _ Hn) in Hsse. discriminate. }
  pose proof (successful_run_encrypts this Hdb Hkeeps w Hsse Hquiet) as Hnow.
  rewrite hasBucketEncryption_observed, Hnow. split; [reflexivity|].
  exact (encrypted_run_puts_nothing this Hdb Hkeeps _ Hsse Hnow).
Qed.

(* ===================================================================== *)
(** ** The bucket is there after a run *)
(* ===================================================================== *)

Section Existence.
Variable this : plugin.
Hypothesis Hdb : nullish (deploymentBucket this) = false.
Hypothesis Hbucket : keeps_bucket (bucket_name this).

Lemma ensure_bucket_exists w w1 t :
  ensure_bucket this w = (inr tt, w1, t) ->
  bucket_observed (bucket_name this) w1 = true.
Proof.
  intros E.
  pose proof (ensure_bucket_stays this Hdb _ (@bucket_stays _ _ _ Hbucket)
                (@bucket_stays_by_wait _ _ _ Hbucket) _ _ _ _ E) as Hstays.
  step_cases E.
  all: first
    [ match goal with
      | Hc : request "S3" "createBucket" _ _ = (inr _, ?w2),
        Hw : sdk_waitFor ?s ?p ?w2 = (?out, ?w3) |- _ =>
          exact (stays_after_wait _ (@bucket_stays_by_wait _ _ _ Hbucket) s p w2 out w3 Hw
                   (@create_sets _ _ _ Hbucket _ _ _ Hc))
      end
    | apply Hstays; unfold bucket_observed;
      match goal with
      | H : request "S3" "headBucket" _ _ = _ |- _ => rewrite H
      end;
      reflexivity ].
Qed.

Lemma successful_run_exists w :
  console_errors (trace_of (applyDeploymentBucket this w)) = [] ->
  bucket_observed (bucket_name this) (world_of (applyDeploymentBucket this w)) = true.
Proof.
  intros Hquiet.
  rewrite applyDeploymentBucket_console in Hquiet. rewrite applyDeploymentBucket_world.
  destruct (reconcile_reconciled this w)
    as [e w1 t1 E1|e w1 t1 w2 t2 E1 E2|e w1 t1 w2 t2 w3 t3 E1 E2 E3
       |e w1 t1 w2 t2 w3 t3 w4 t4 E1 E2 E3 E4
       |r w1 t1 w2 t2 w3 t3 w4 t4 w5 t5 E1 E2 E3 E4 E5];
    try discriminate Hquiet.
  destruct r as [e|[]]; [discriminate Hquiet|].
  pose proof (@bucket_stays _ _ _ Hbucket) as Hs.
  apply (apply_policy_stays this Hdb _ Hs _ _ _ _ E5).
  apply (reconcile_acceleration_stays this Hdb _ Hs _ _ _ _ E4).
  apply (reconcile_versioning_stays this Hdb _ Hs _ _ _ _ E3).
  apply (reconcile_encryption_stays this Hdb _ Hs _ _ _ _ E2).
  exact (ensure_bucket_exists _ _ _ E1).
Qed.

End Existence.

(* ===================================================================== *)
(** ** A bucket that is as desired is only probed *)
(* ===================================================================== *)

Section Settled.
Variable this : plugin.
Hypothesis Hdb : nullish (deploymentBucket this) = false.
Hypothesis Hfaithful : faithful (bucket_name this).
Hypothesis Hkeeps : keeps_encryption (bucket_name this).

Lemma ensure_bucket_settled w r w1 t :
  bucket_observed (bucket_name this) w = true ->
  ensure_bucket this w = (r, w1, t) ->
  r = inr tt /\ existsb (one_of mutation_ops) (calls t) = false.
Proof.
  unfold bucket_observed. intros Hhead E. step_cases E; try discriminate Hhead.
  split; reflexivity.
Qed.

Lemma reconcile_encryption_settled w r w1 t :
  (truthy (desired_sse this) = true -> encryption_observed (bucket_name this) w = true) ->
  reconcile_encryption this w = (r, w1, t) ->
  r = inr tt /\ existsb (one_of mutation_ops) (calls t) = false.
Proof.
  intros Hsse E. step_cases E; try (split; reflexivity).
  all: exfalso.
  all: assert (Hobs : encryption_observed (bucket_name this) w = true)
         by (apply Hsse; first [assumption | reflexivity]).
  all: match goal with
       | H : request "S3" "getBucketEncryption" _ _ = (inl _, _) |- _ =>
           unfold encryption_observed in Hobs; rewrite H in Hobs; discriminate Hobs
       end.
Qed.

Lemma reconcile_versioning_settled w r w1 t :
  desired_versioning this = VBool (versioning_observed (bucket_name this) w) ->
  reconcile_versioning this w = (r, w1, t) ->
  r = inr tt /\ existsb (one_of mutation_ops) (calls t) = false.
Proof.
  intros Hv E. unfold versioning_observed in Hv.
  assert (Hcfg : nullish (config this) = false).
  { destruct (nullish (config this)) eqn:Hn; [|reflexivity].
    unfold desired_versioning in Hv. rewrite (prop_nullish _ _ Hn) in Hv. discriminate. }
  step_cases E; try congruence; try (split; reflexivity).
  all: exfalso.
  all: try match goal with
       | H : request "S3" "getBucketVersioning" _ _ = _ |- _ => rewrite H in Hv
       end.
  all: cbn [fst] in Hv.
  all: match goal with
       | H : loose_neq_bool _ _ = true |- _ =>
           rewrite Hv, loose_neq_bool_spec, Bool.eqb_reflx in H; discriminate H
       end.
Qed.

Lemma reconcile_acceleration_settled w r w1 t :
  desired_acceleration this = VBool (acceleration_observed (bucket_name this) w) ->
  reconcile_acceleration this w = (r, w1, t) ->
  r = inr tt /\ existsb (one_of mutation_ops) (calls t) = false.
Proof.
  intros Ha E. unfold acceleration_observed in Ha.
  assert (Hcfg : nullish (config this) = false).
  { destruct (nullish (config this)) eqn:Hn; [|reflexivity].
    unfold desired_acceleration in Ha. rewrite (prop_nullish _ _ Hn) in Ha. discriminate. }
  step_cases E; try congruence; try (split; reflexivity).
  all: exfalso.
  all: try match goal with
       | H : request "S3" "getBucketAccelerateConfiguration" _ _ = _ |- _ =>
           rewrite H in Ha
       end.
  all: cbn [fst] in Ha.
  all: match goal with
       | H : loose_neq_bool _ _ = true |- _ =>
           rewrite Ha, loose_neq_bool_spec, Bool.eqb_reflx in H; discriminate H
       end.
Qed.

Lemma apply_policy_settled w r w1 t :
  nullish (config this) = false ->
  truthy (desired_policy this) = false ->
  apply_policy this w = (r, w1, t) ->
  r = inr tt /\ existsb (one_of mutation_ops) (calls t) = false.
Proof. intros Hcfg Hpolicy E. step_cases E; try congruence; split; reflexivity. Qed.

Lemma settled_run_only_probes w :
  truthy (desired_policy this) = false ->
  settled this w ->
  result_of (reconcile this w) = inr tt
  /\ existsb (one_of mutation_ops) (calls (trace_of (reconcile this w))) = false.
Proof.
  intros Hpolicy (Hhead & Hsse & Hv & Ha).
  assert (Hcfg : nullish (config this) = false).
  { destruct (nullish (config this)) eqn:Hn; [|reflexivity].
    unfold desired_versioning in Hv. rewrite (prop_nullish _ _ Hn) in Hv. discriminate. }
  destruct (reconcile_reconciled this w)
    as [e w1 t1 E1|e w1 t1 w2 t2 E1 E2|e w1 t1 w2 t2 w3 t3 E1 E2 E3
       |e w1 t1 w2 t2 w3 t3 w4 t4 E1 E2 E3 E4
       |r w1 t1 w2 t2 w3 t3 w4 t4 w5 t5 E1 E2 E3 E4 E5].
  all: destruct (ensure_bucket_settled _ _ _ _ Hhead E1) as [Hr1 Hm1];
    try discriminate Hr1.
  all: destruct (ensure_bucket_keeps this Hdb Hfaithful _ _ _ _ E1) as [Hv1 Ha1].
  all: assert (Hsse1 : truthy (desired_sse this) = true ->
                       encryption_observed (bucket_name this) w1 = true)
         by (intros Ht;
             exact (ensure_bucket_stays this Hdb _ (@encryption_stays _ _ _ Hkeeps)
                      (@encryption_stays_by_wait _ _ _ Hkeeps) _ _ _ _ E1 (Hsse Ht))).
  all: destruct (reconcile_encryption_settled _ _ _ _ Hsse1 E2) as [Hr2 Hm2];
    try discriminate Hr2.
  all: destruct (reconcile_encryption_keeps this Hdb Hfaithful _ _ _ _ E2) as [Hv2 Ha2].
  all: rewrite <- Hv1, <- Hv2 in Hv; rewrite <- Ha1, <- Ha2 in Ha.
  all: destruct (reconcile_versioning_settled _ _ _ _ Hv E3) as [Hr3 Hm3];
    try discriminate Hr3.
  all: destruct (reconcile_versioning_settles this Hdb Hfaithful _ _ _ _ _ Hv E3)
         as (Ha3 & _ & _).
  all: rewrite <- Ha3 in Ha.
  all: destruct (reconcile_acceleration_settled _ _ _ _ Ha E4) as [Hr4 Hm4];
    try discriminate Hr4.
  destruct (apply_policy_settled _ _ _ _ Hcfg Hpolicy E5) as [Hr5 Hm5].
  split; [exact Hr5|].
  rewrite !calls_app, !existsb_app, Hm1, Hm2, Hm3, Hm4, Hm5. reflexivity.
Qed.

Lemma no_mutation_no_provisioning l :
  existsb (one_of mutation_ops) l = false -> existsb (one_of provisioning_ops) l = false.
Proof.
  induction l as [|ev l IH]; [reflexivity|].
  cbn [existsb]. intros H. apply orb_false_iff in H as [Hev Hl].
  rewrite (IH Hl), orb_false_r.
  destruct (one_of provisioning_ops ev) eqn:Hp; [|reflexivity].
  rewrite <- Hev. symmetry. revert Hp. generalize ev. by_names.
Qed.

Lemma settled_run_provisions_nothing w :
  settled this w ->
  existsb (one_of provisioning_ops) (calls (trace_of (reconcile this w))) = false.
Proof.
  intros (Hhead & Hsse & Hv & Ha).
  destruct (reconcile_reconciled this w)
    as [e w1 t1 E1|e w1 t1 w2 t2 E1 E2|e w1 t1 w2 t2 w3 t3 E1 E2 E3
       |e w1 t1 w2 t2 w3 t3 w4 t4 E1 E2 E3 E4
       |r w1 t1 w2 t2 w3 t3 w4 t4 w5 t5 E1 E2 E3 E4 E5].
  all: destruct (ensure_bucket_settled _ _ _ _ Hhead E1) as [Hr1 Hm1];
    try discriminate Hr1.
  all: destruct (ensure_bucket_keeps this Hdb Hfaithful _ _ _ _ E1) as [Hv1 Ha1].
  all: assert (Hsse1 : truthy (desired_sse this) = true ->
                       encryption_observed (bucket_name this) w1 = true)
         by (intros Ht;
             exact (ensure_bucket_stays this Hdb _ (@encryption_stays _ _ _ Hkeeps)
                      (@encryption_stays_by_wait _ _ _ Hkeeps) _ _ _ _ E1 (Hsse Ht))).
  all: destruct (reconcile_encryption_settled _ _ _ _ Hsse1 E2) as [Hr2 Hm2];
    try discriminate Hr2.
  all: destruct (reconcile_encryption_keeps this Hdb Hfaithful _ _ _ _ E2) as [Hv2 Ha2].
  all: rewrite <- Hv1, <- Hv2 in Hv; rewrite <- Ha1, <- Ha2 in Ha.
  all: destruct (reconcile_versioning_settled _ _ _ _ Hv E3) as [Hr3 Hm3];
    try discriminate Hr3.
  all: destruct (reconcile_versioning_settles this Hdb Hfaithful _ _ _ _ _ Hv E3)
         as (Ha3 & _ & _).
  all: rewrite <- Ha3 in Ha.
  all: destruct (reconcile_acceleration_settled _ _ _ _ Ha E4) as [Hr4 Hm4];
    try discriminate Hr4.
  pose proof (proj1 (apply_policy_sound _ _ _ _ _ Hdb E5)) as Hops.
  rewrite !calls_app, !existsb_app.
  rewrite (no_mutation_no_provisioning _ Hm1), (no_mutation_no_provisioning _ Hm2),
    (no_mutation_no_provisioning _ Hm3), (no_mutation_no_provisioning _ Hm4).
  rewrite (ops_within_existsb _ (one_of provisioning_ops) t5 Hops) by by_names.
  reflexivity.
Qed.

End Settled.

(** X14.  A bucket that is as desired is only probed.  When the bucket
    exists, is encrypted if encryption is asked for, and its versioning and
    acceleration status are the desired booleans, a run of a plugin without
    a policy, against a provider that keeps what it is given, asks for no
    change (no [createBucket] and no put) and prints no error block. *)
Theorem settled_bucket_is_only_probed this w :
  nullish (deploymentBucket this) = false ->
  truthy (desired_policy this) = false ->
  faithful (bucket_name this) ->
  keeps_encryption (bucket_name this) ->
  settled this w ->
  let t := trace_of (applyDeploymentBucket this w) in
  existsb (one_of mutation_ops) (calls t) = false
  /\ console_errors t = [].
Proof.
  intros Hdb Hpolicy Hfaithful Hkeeps Hsettled. cbv zeta.
  destruct (settled_run_only_probes this Hdb Hfaithful Hkeeps w Hpolicy Hsettled)
    as [Hr Hm].
  rewrite applyDeploymentBucket_calls, applyDeploymentBucket_console, Hr.
  split; [exact Hm | reflexivity].
Qed.

(** X15.  A run that printed no error block leaves the bucket as desired,
    so the next run provisions nothing.  Let the desired [versioning] and
    [accelerate] be booleans, and let the provider keep what it is given.
    After a run without error block the bucket exists, is encrypted if
    encryption is asked for, and has the desired versioning and
    acceleration status; a second run from there calls neither
    [createBucket] nor a put of encryption, versioning or acceleration: the
    only change it can ask for is the policy, which is put at every run. *)
Theorem successful_run_settles_the_bucket this v a w :
  desired_versioning this = VBool v ->
  desired_acceleration this = VBool a ->
  faithful (bucket_name this) ->
  keeps_encryption (bucket_name this) ->
  keeps_bucket (bucket_name this) ->
  let run := applyDeploymentBucket this w in
  let again := applyDeploymentBucket this (world_of run) in
  console_errors (trace_of run) = [] ->
  settled this (world_of run)
  /\ existsb (one_of provisioning_ops) (calls (trace_of again)) = false.
Proof.
  intros Hv Ha Hfaithful Hkeeps Hbucket. cbv zeta. intros Hquiet.
  assert (Hdb : nullish (deploymentBucket this) = false).
  { destruct (nullish (deploymentBucket this)) eqn:Hn; [|reflexivity].
    rewrite applyDeploymentBucket_console, (reconcile_nullish _ _ Hn) in Hquiet.
    discriminate Hquiet. }
  assert (Hsettled : settled this (world_of (applyDeploymentBucket this w))).
  { destruct (successful_run_converges this Hdb Hfaithful v a w Hv Ha Hquiet)
      as [Hnowv Hnowa].
    repeat split.
    - exact (successful_run_exists this Hdb Hbucket w Hquiet).
    - intros Hsse. exact (successful_run_encrypts this Hdb Hkeeps w Hsse Hquiet).
    - rewrite Hnowv. exact Hv.
    - rewrite Hnowa. exact Ha. }
  split; [exact Hsettled|].
  rewrite applyDeploymentBucket_calls.
  exact (settled_run_provisions_nothing this Hdb Hfaithful Hkeeps _ Hsettled).
Qed.

End Execution.

(* ===================================================================== *)
(** ** The lookup helper *)
(* ===================================================================== *)

Section Helper.
Context {RT : Runtime}.

Lemma path_steps_truthy path :
  Forall (fun s => truthy (VStr s) = true) (path_steps path).
Proof.
  unfold path_steps, filter_Boolean. apply Forall_forall. intros s Hin.
  apply filter_In in Hin. tauto.
Qed.

Lemma every_stops_at_falsy before :
  forall obj step after v,
    Forall (fun s => truthy (VStr s) = true) (before ++ step :: after) ->
    follow obj (before ++ [step]) = ok v ->
    truthy v = false ->
    exists last, every obj (before ++ step :: after) = ok (false, last).
Proof.
  induction before as [|s before IH]; intros obj step after v Hsteps Hfollow Hfalsy.
  - cbn [app every follow] in *. inversion Hsteps as [|? ? Hstep _]; subst.
    unfold get_callback. rewrite Hstep.
    destruct (get_prop obj step) as [e|next]; cbn [rbind ok fst snd] in *;
      [discriminate|].
    inversion Hfollow; subst. rewrite Hfalsy. cbn. eauto.
  - cbn [app every follow] in *. inversion Hsteps as [|? ? Hs Hrest]; subst.
    unfold get_callback. rewrite Hs.
    destruct (get_prop obj s) as [e|next]; cbn [rbind ok fst snd] in *;
      [discriminate|].
    destruct (truthy next); cbn [negb]; [|eauto].
    exact (IH next step after v Hrest Hfollow Hfalsy).
Qed.

Lemma own_put_own k v props : own k (put_own k v props) = Some v.
Proof.
  induction props as [|[k' v'] props IH]; simpl.
  - rewrite String.eqb_refl. reflexivity.
  - destruct (k' =? k) eqn:E; simpl.
    + rewrite String.eqb_refl. reflexivity.
    + rewrite E. exact IH.
Qed.

Lemma own_remove_own k props : own k (remove_own k props) = None.
Proof.
  induction props as [|[k' v'] props IH]; simpl; [reflexivity|].
  destruct (k' =? k) eqn:E; simpl; [exact IH|]. rewrite E. exact IH.
Qed.

Lemma own_put_own_other k k' v props :
  k' <> k -> own k (put_own k' v props) = own k props.
Proof.
  intros Hne. apply String.eqb_neq in Hne.
  induction props as [|[k0 v0] props IH]; simpl.
  - rewrite Hne. reflexivity.
  - destruct (k0 =? k') eqn:E; simpl.
    + apply String.eqb_eq in E. subst k0. rewrite Hne. reflexivity.
    + destruct (k0 =? k); [reflexivity | exact IH].
Qed.

(** C10.  [get] answers the default as soon as a value on the path is
    falsy, the last one included: if following the steps of the path up to
    some step reaches a falsy value, the default is returned.  So a property
    set to [false], [0], [null] or the empty string is replaced by the
    default, which is also the answer for an object without the property
    (under a name that is not the one of a built-in member, which an object
    without the property would inherit). *)
Theorem get_defaults_on_any_falsy_step obj path defaultValue :
  (forall before step after v,
     path_steps path = (before ++ step :: after)%list ->
     follow obj (before ++ [step]) = ok v ->
     truthy v = false ->
     get obj path defaultValue = ok defaultValue)
  /\ (forall props v,
        path_steps path = [path] ->
        In v [VBool false; VNum 0; VNull; VStr ""] ->
        get (VObj (put_own path v props)) path defaultValue = ok defaultValue
        /\ (truthy (inherited ObjectPrototype path) = false ->
            get (VObj (remove_own path props)) path defaultValue = ok defaultValue)).
Proof.
  assert (Hfirst : forall o before step after v,
             path_steps path = (before ++ step :: after)%list ->
             follow o (before ++ [step]) = ok v ->
             truthy v = false ->
             get o path defaultValue = ok defaultValue).
  { intros o before step after v Hpath Hfollow Hfalsy. unfold get.
    pose proof (path_steps_truthy path) as Hsteps. rewrite Hpath in *.
    destruct (every_stops_at_falsy before o step after v Hsteps Hfollow Hfalsy)
      as [last ->].
    reflexivity. }
  split; [exact (Hfirst obj)|].
  intros props v Hpath Hv. split.
  - apply (Hfirst _ [] path [] v Hpath).
    + simpl. rewrite own_put_own. reflexivity.
    + simpl in Hv. destruct Hv as [<-|[<-|[<-|[<-|[]]]]]; reflexivity.
  - intros Hnone.
    apply (Hfirst _ [] path [] (inherited ObjectPrototype path) Hpath).
    + simpl. rewrite own_remove_own. reflexivity.
    + exact Hnone.
Qed.

End Helper.

(* ===================================================================== *)
(** ** Activation *)
(* ===================================================================== *)

Section Activation.
Context {RT : Runtime}.

Lemma enabled_test enabled :
  negb (strict_eq_prim enabled VUndefined) && strict_eq_prim enabled (VBool false)
  = strict_eq_prim enabled (VBool false).
Proof. destruct enabled as [| |[]| | | | | |]; reflexivity. Qed.

Lemma set_prop_keeps obj k v obj' k' :
  set_prop obj k v = ok obj' -> k <> k' -> prop obj' k' = prop obj k'.
Proof.
  intros Hset Hne. unfold prop.
  destruct obj; simpl in Hset; try discriminate Hset; inversion Hset; subst; simpl.
  - rewrite (own_put_own_other k' k v props Hne). reflexivity.
  - unfold array_own. rewrite (own_put_own_other k' k v props Hne). reflexivity.
  - rewrite (own_put_own_other k' k v props Hne). reflexivity.
Qed.

(** C9.  When the constructor completes, the hook holds
    [applyDeploymentBucket] if and only if [config.enabled] is not [false],
    [deploymentBucket.name] is truthy, and the command list (empty when the
    host gives none) does not include ['package'].  In particular no hook is
    registered for a plugin without a bucket name. *)
Theorem hook_registered_iff_enabled_named_and_not_packaging serverless p :
  constructor serverless = inr p ->
  (registered (inr p) = true
   <-> strict_eq_prim (prop (config p) "enabled") (VBool false) = false
       /\ truthy (prop (deploymentBucket p) "name") = true
       /\ exists commands,
            get serverless "processedInput.commands" (VArr [] []) = inr commands
            /\ includes commands "package" = inr false).
Proof.
  unfold constructor. intros H.
  repeat match type of H with
    | context [rbind ?r _] =>
        match r with
        | context [rbind] => fail 1
        | _ => destruct r as [?e|?x] eqn:?; simpl rbind in H; [discriminate H|]
        end
    | context [if ?b then _ else _] =>
        match b with
        | context [rbind] => fail 1
        | _ => destruct b eqn:?
        end
    end.
  all: inversion H; subst; clear H; unfold registered; simpl.
  all: repeat match goal with
    | H : negb (strict_eq_prim _ VUndefined) && _ = _ |- _ => rewrite enabled_test in H
    | H : get_prop ?o ?k = inr ?v |- _ =>
        assert (prop o k = v) by (unfold prop; rewrite H; reflexivity); clear H
    end.
  all: repeat match goal with
    | H : set_prop ?o ?k ?v = inr ?o' |- _ =>
        rewrite (set_prop_keeps o k v o' "enabled" H) by discriminate;
        clear H
    end.
  all: subst.
  all: split; [intros Hreg; try discriminate Hreg | intros (Hen & Hname & commands & Hget & Hinc)].
  all: try congruence.
  all: try (repeat split; try assumption; eexists; split; [eassumption|];
            match goal with
            | H : negb ?b = true |- _ => destruct b; [discriminate H|]; assumption
            end).
  all: try match goal with
    | H : negb ?b = false |- _ => destruct b; [|discriminate H]; congruence
    end.
  repeat split; try assumption. eexists. split; [reflexivity|].
  match goal with
  | H : negb ?b = true |- _ => destruct b; [discriminate H|]; assumption
  end.
Qed.

End Activation.

(* ===================================================================== *)
(** ** Further properties *)
(* ===================================================================== *)

Section Constructed.
Context {RT : Runtime}.

Lemma every_true_truthy steps :
  forall obj last,
    steps <> [] ->
    Forall (fun s => truthy (VStr s) = true) steps ->
    every obj steps = ok (true, last) ->
    truthy last = true.
Proof.
  induction steps as [|step rest IH]; intros obj last Hne Hsteps Hevery.
  - congruence.
  - inversion Hsteps as [|? ? Hstep Hrest]; subst.
    cbn [every] in Hevery. unfold get_callback in Hevery. rewrite Hstep in Hevery.
    destruct (get_prop obj step) as [e|next]; cbn [rbind ok fst snd] in Hevery;
      [discriminate|].
    destruct (truthy next) eqn:Hnext; cbn [negb] in Hevery; [|discriminate].
    destruct rest as [|step' rest'].
    + cbn [every] in Hevery. inversion Hevery; subst. exact Hnext.
    + apply (IH next last); [discriminate | exact Hrest | exact Hevery].
Qed.

Lemma get_truthy_or_default obj path defaultValue v :
  path_steps path <> [] ->
  get obj path defaultValue = ok v ->
  truthy v = true \/ v = defaultValue.
Proof.
  unfold get. intros Hne Hget.
  destruct (every obj (path_steps path)) as [e|[[] last]] eqn:Hevery;
    cbn [rbind ok fst snd] in Hget; inversion Hget; subst.
  - left. exact (every_true_truthy _ _ _ Hne (path_steps_truthy path) Hevery).
  - right. reflexivity.
Qed.

Lemma set_prop_not_nullish obj k v obj' : set_prop obj k v = ok obj' -> nullish obj' = false.
Proof.
  destruct obj; simpl; intros H; try discriminate H; inversion H; reflexivity.
Qed.

(** X1.  In a plugin the constructor built, [deploymentBucket] and [config] are
    neither [undefined] nor [null]: a run of such a plugin never throws for
    reading one of their properties. *)
Theorem constructed_fields_can_be_read serverless p :
  constructor serverless = inr p ->
  nullish (deploymentBucket p) = false /\ nullish (config p) = false.
Proof.
  unfold constructor. intros H.
  repeat match type of H with
    | context [rbind ?r _] =>
        match r with
        | context [rbind] => fail 1
        | _ => destruct r as [?e|?x] eqn:?; simpl rbind in H; [discriminate H|]
        end
    | context [if ?b then _ else _] =>
        match b with
        | context [rbind] => fail 1
        | _ => destruct b eqn:?
        end
    end.
  all: inversion H; subst; clear H; simpl.
  all: repeat match goal with
    | H : context [if semver_satisfies ?v ?r then _ else _] |- _ =>
        destruct (semver_satisfies v r)
    end.
  all: repeat match goal with
    | H : get _ ?path (VObj []) = inr ?v |- _ =>
        let Hv := fresh "Hv" in
        assert (Hv : nullish v = false)
          by (destruct (get_truthy_or_default _ path _ _ ltac:(discriminate) H)
                as [Ht| ->]; [exact (truthy_not_nullish _ Ht) | reflexivity]);
        clear H
    | H : set_prop _ _ _ = inr ?v |- _ =>
        let Hv := fresh "Hv" in
        assert (Hv : nullish v = false) by exact (set_prop_not_nullish _ _ _ _ H);
        clear H
    end.
  all: split; assumption.
Qed.

End Constructed.

Section Flags.
Context {RT : Runtime} {W : Type} {P : Provider W}.

Lemma loose_neq_bool_not_a_number b s :
  StringToNumber s = None -> loose_neq_bool b (VStr s) = true.
Proof. intros H. unfold loose_neq_bool, loose_eq_bool. rewrite H. reflexivity. Qed.

(** X2.  A [versioning] flag given as a string that denotes no number (a quoted
    ["yes"], say) differs from every observed status under [!=]: each run
    that probes the versioning status puts it, whatever the probe saw. *)
Theorem string_flag_puts_in_every_run this s w :
  desired_versioning this = VStr s ->
  StringToNumber s = None ->
  let t := trace_of (applyDeploymentBucket this w) in
  count (is_request "putBucketVersioning") t = count (is_request "getBucketVersioning") t.
Proof.
  intros Hv Hnan. cbv zeta. rewrite !applyDeploymentBucket_count.
  destruct (nullish (deploymentBucket this)) eqn:Hdb.
  { rewrite (reconcile_nullish _ _ Hdb). reflexivity. }
  destruct (reconcile_reconciled this w)
    as [e w1 t1 E1|e w1 t1 w2 t2 E1 E2|e w1 t1 w2 t2 w3 t3 E1 E2 E3
       |e w1 t1 w2 t2 w3 t3 w4 t4 E1 E2 E3 E4
       |r w1 t1 w2 t2 w3 t3 w4 t4 w5 t5 E1 E2 E3 E4 E5].
  all: repeat match goal with
    | E : ensure_bucket _ _ = (_, _, ?t) |- _ =>
        let H := fresh "Hops" in
        pose proof (proj1 (ensure_bucket_sound _ _ _ _ _ Hdb E)) as H; clear E
    | E : reconcile_encryption _ _ = (_, _, ?t) |- _ =>
        let H := fresh "Hops" in
        pose proof (proj1 (reconcile_encryption_sound _ _ _ _ _ Hdb E)) as H; clear E
    | E : reconcile_acceleration _ _ = (_, _, ?t) |- _ =>
        let H := fresh "Hops" in
        pose proof (proj1 (reconcile_acceleration_sound _ _ _ _ _ Hdb E)) as H; clear E
    | E : apply_policy _ _ = (_, _, ?t) |- _ =>
        let H := fresh "Hops" in
        pose proof (proj1 (apply_policy_sound _ _ _ _ _ Hdb E)) as H; clear E
    end.
  all: rewrite ?count_app.
  all: repeat match goal with
    | H : ops_within _ ?t = true |- context [count ?p ?t] =>
        rewrite (ops_within_count _ p t H) by by_names
    end.
  all: try reflexivity.
  all: assert (Hcfg : nullish (config this) = false)
         by (destruct (nullish (config this)) eqn:Hn; [|reflexivity];
             unfold desired_versioning in Hv;
             rewrite (prop_nullish _ "versioning" Hn) in Hv; discriminate Hv).
  all: rewrite reconcile_versioning_run in E3 by assumption; cbv zeta in E3.
  all: destruct (request "S3" "getBucketVersioning" _ _) as [out wa] in E3.
  all: rewrite Hcfg, Hv, (loose_neq_bool_not_a_number _ _ Hnan) in E3.
  all: destruct (request "S3" "putBucketVersioning" _ _) as [[e'|r'] wb] in E3.
  all: inversion E3; subst; reflexivity.
Qed.

End Flags.

(* ===================================================================== *)
(** ** The lookup helper, step by step *)
(* ===================================================================== *)

Section Paths.
Context {RT : Runtime}.

Lemma split_dot_not_nil path : split_dot path <> [].
Proof.
  destruct path as [|c rest]; simpl; [discriminate|].
  destruct (Ascii.eqb c dot); [discriminate|].
  destruct (split_dot rest); discriminate.
Qed.

Lemma split_dot_app p q : split_dot (p ++ "." ++ q) = (split_dot p ++ split_dot q)%list.
Proof.
  induction p as [|c p IH]; [reflexivity|].
  change (String c p ++ "." ++ q) with (String c (p ++ "." ++ q)).
  cbn [split_dot]. rewrite IH.
  destruct (Ascii.eqb c dot); [reflexivity|].
  pose proof (split_dot_not_nil p) as Hne.
  destruct (split_dot p) as [|piece pieces]; [congruence | reflexivity].
Qed.

Lemma path_steps_app p q : path_steps (p ++ "." ++ q) = (path_steps p ++ path_steps q)%list.
Proof. unfold path_steps, filter_Boolean. rewrite split_dot_app. apply filter_app. Qed.

Lemma split_dot_dotless s : dotless s = true -> split_dot s = [s].
Proof.
  induction s as [|c s IH]; [reflexivity|].
  cbn [dotless split_dot]. intros H. apply andb_true_iff in H as [Hc Hs].
  apply negb_true_iff in Hc. rewrite Hc, (IH Hs). reflexivity.
Qed.

Lemma path_steps_step_name s : step_name s = true -> path_steps s = [s].
Proof.
  unfold step_name. intros H. apply andb_true_iff in H as [Ht Hd].
  unfold path_steps, filter_Boolean. rewrite (split_dot_dotless s Hd).
  cbn [filter]. rewrite Ht. reflexivity.
Qed.

(** X5.  The steps of a path are the names between its dots: a path made by
    joining names with dots is read back as those names, the steps of two
    paths joined by a dot are the steps of the first followed by the steps
    of the second, and the empty path has no step.  So empty pieces (a dot
    at either end, two dots in a row) are ignored. *)
Theorem path_steps_reads_names_between_dots :
  (forall steps, forallb step_name steps = true -> path_steps (join_dot steps) = steps)
  /\ (forall p q, path_steps (p ++ "." ++ q) = (path_steps p ++ path_steps q)%list)
  /\ path_steps "" = []
  /\ (forall obj p defaultValue,
        get obj ("." ++ p) defaultValue = get obj p defaultValue
        /\ get obj (p ++ ".") defaultValue = get obj p defaultValue).
Proof.
  split; [|split; [exact path_steps_app | split; [reflexivity|]]].
  - induction steps as [|step rest IH]; intros Hall; [reflexivity|].
    cbn [forallb] in Hall. apply andb_true_iff in Hall as [Hstep Hrest].
    cbn [join_dot]. destruct rest as [|step' rest'].
    + exact (path_steps_step_name step Hstep).
    + rewrite path_steps_app, (path_steps_step_name step Hstep), (IH Hrest).
      reflexivity.
  - intros obj p defaultValue. unfold get. split.
    + change ("." ++ p) with ("" ++ "." ++ p). rewrite path_steps_app. reflexivity.
    + change (p ++ ".") with (p ++ "." ++ ""). rewrite path_steps_app.
      change (path_steps "") with (@nil string). rewrite app_nil_r. reflexivity.
Qed.

(** *** Walking the steps *)

Lemma every_true_follow steps :
  forall obj last,
    Forall (fun s => truthy (VStr s) = true) steps ->
    every obj steps = ok (true, last) ->
    follow obj steps = ok last.
Proof.
  induction steps as [|step rest IH]; intros obj last Hsteps Hevery.
  - cbn in *. inversion Hevery. reflexivity.
  - inversion Hsteps as [|? ? Hstep Hrest]; subst.
    cbn [every follow] in *. unfold get_callback in Hevery. rewrite Hstep in Hevery.
    destruct (get_prop obj step) as [e|next]; cbn [rbind ok fst snd] in *;
      [discriminate|].
    destruct (truthy next); cbn [negb] in Hevery; [|discriminate].
    exact (IH next last Hrest Hevery).
Qed.

(** When no value met on the way is falsy, [every] walks to the end. *)
Lemma every_walks steps :
  forall obj,
    Forall (fun s => truthy (VStr s) = true) steps ->
    (forall before step after v,
       steps = (before ++ step :: after)%list ->
       follow obj (before ++ [step]) = ok v ->
       truthy v = true) ->
    every obj steps = rbind (follow obj steps) (fun v => ok (true, v)).
Proof.
  induction steps as [|step rest IH]; intros obj Hsteps Hall; [reflexivity|].
  inversion Hsteps as [|? ? Hstep Hrest]; subst.
  cbn [every follow]. unfold get_callback. rewrite Hstep.
  destruct (get_prop obj step) as [e|next] eqn:Hnext; cbn [rbind ok fst snd];
    [reflexivity|].
  assert (Ht : truthy next = true).
  { apply (Hall [] step rest next eq_refl). cbn. rewrite Hnext. reflexivity. }
  rewrite Ht. cbn [negb]. apply (IH next Hrest).
  intros before step' after v Heq Hfollow.
  apply (Hall (step :: before) step' after v).
  - cbn. rewrite Heq. reflexivity.
  - cbn. rewrite Hnext. exact Hfollow.
Qed.

(** X3.  [get] answers the value the path leads to unless a value met on the way
    is falsy: when following the steps never reaches a falsy value, [get]
    is [follow]; and whenever [get] answers something else than the
    default, that is the value the path leads to, and it is truthy. *)
Theorem get_answers_value_reached obj path defaultValue :
  ((forall before step after v,
      path_steps path = (before ++ step :: after)%list ->
      follow obj (before ++ [step]) = ok v ->
      truthy v = true) ->
   get obj path defaultValue = follow obj (path_steps path))
  /\ (forall v,
        get obj path defaultValue = ok v ->
        v <> defaultValue ->
        follow obj (path_steps path) = ok v
        /\ (path_steps path <> [] -> truthy v = true)).
Proof.
  split.
  - intros Hall. unfold get.
    rewrite (every_walks (path_steps path) obj (path_steps_truthy path) Hall).
    destruct (follow obj (path_steps path)); reflexivity.
  - intros v Hget Hne. unfold get in Hget.
    destruct (every obj (path_steps path)) as [e|[[] last]] eqn:Hevery;
      cbn [rbind ok fst snd] in Hget; inversion Hget; subst; [|congruence].
    split; [exact (every_true_follow _ _ _ (path_steps_truthy path) Hevery)|].
    intros Hsteps.
    exact (every_true_truthy _ _ _ Hsteps (path_steps_truthy path) Hevery).
Qed.

(** *** When [get] throws *)

Lemma get_prop_throws obj k e : get_prop obj k = inl e -> nullish obj = true.
Proof. destruct obj; simpl; intros H; try discriminate H; reflexivity. Qed.

Lemma every_throws steps :
  forall obj e,
    Forall (fun s => truthy (VStr s) = true) steps ->
    every obj steps = inl e ->
    nullish obj = true.
Proof.
  induction steps as [|step rest IH]; intros obj e Hsteps Hevery.
  - discriminate Hevery.
  - inversion Hsteps as [|? ? Hstep Hrest]; subst.
    cbn [every] in Hevery. unfold get_callback in Hevery. rewrite Hstep in Hevery.
    destruct (get_prop obj step) as [e'|next] eqn:Hnext; cbn [rbind ok fst snd] in Hevery.
    + exact (get_prop_throws _ _ _ Hnext).
    + destruct (truthy next) eqn:Ht; cbn [negb] in Hevery; [|discriminate].
      pose proof (IH next e Hrest Hevery) as Hnull.
      rewrite (truthy_not_nullish _ Ht) in Hnull. discriminate.
Qed.

Lemma get_total obj path defaultValue :
  nullish obj = false -> exists v, get obj path defaultValue = ok v.
Proof.
  intros Hobj. unfold get.
  destruct (every obj (path_steps path)) as [e|[[] last]] eqn:Hevery;
    cbn [rbind ok fst snd]; eauto.
  rewrite (every_throws _ _ _ (path_steps_truthy path) Hevery) in Hobj. discriminate.
Qed.

(** X4.  [get] throws exactly when it is given [undefined] or [null] to read a
    path with at least one step from, and then with the TypeError of
    reading the first step; the default does not stand in for a missing
    root.  From any other value it returns, whatever the path. *)
Theorem get_throws_exactly_on_nullish_root obj path defaultValue :
  (forall e,
     get obj path defaultValue = throw e
     <-> nullish obj = true
         /\ exists step rest, path_steps path = step :: rest /\ e = cannot_read step)
  /\ (path_steps path = [] -> get obj path defaultValue = ok obj)
  /\ (nullish obj = false -> exists v, get obj path defaultValue = ok v).
Proof.
  split; [|split; [|exact (get_total obj path defaultValue)]].
  - intros e. unfold get. split.
    + intros Hget.
      destruct (every obj (path_steps path)) as [e'|[[] last]] eqn:Hevery;
        cbn [rbind ok fst snd] in Hget; try discriminate Hget.
      inversion Hget; subst e'.
      pose proof (every_throws _ _ _ (path_steps_truthy path) Hevery) as Hnull.
      split; [exact Hnull|].
      pose proof (path_steps_truthy path) as Hsteps.
      destruct (path_steps path) as [|step rest]; [discriminate Hevery|].
      exists step, rest. split; [reflexivity|].
      inversion Hsteps as [|? ? Hstep _]; subst.
      cbn [every] in Hevery. unfold get_callback in Hevery.
      rewrite Hstep, (get_prop_nullish _ step Hnull) in Hevery.
      cbn in Hevery. inversion Hevery. reflexivity.
    + intros (Hnull & step & rest & Hpath & ->).
      pose proof (path_steps_truthy path) as Hsteps. rewrite Hpath in *.
      inversion Hsteps as [|? ? Hstep _]; subst.
      cbn [every]. unfold get_callback.
      rewrite Hstep, (get_prop_nullish _ step Hnull). reflexivity.
  - unfold get. intros ->. reflexivity.
Qed.

(** *** Paths in two parts *)

Lemma every_app s1 :
  forall obj v s2, every obj s1 = ok (true, v) -> every obj (s1 ++ s2) = every v s2.
Proof.
  induction s1 as [|step rest IH]; intros obj v s2 Hevery.
  - cbn in *. inversion Hevery. reflexivity.
  - cbn [every app] in *.
    destruct (get_callback obj step) as [e|[[] next]]; cbn [rbind ok fst snd] in *;
      try discriminate Hevery.
    exact (IH next v s2 Hevery).
Qed.

Lemma every_app_false s1 :
  forall obj v s2, every obj s1 = ok (false, v) -> every obj (s1 ++ s2) = ok (false, v).
Proof.
  induction s1 as [|step rest IH]; intros obj v s2 Hevery.
  - cbn in Hevery. discriminate.
  - cbn [every app] in *.
    destruct (get_callback obj step) as [e|[[] next]]; cbn [rbind ok fst snd] in *;
      try discriminate Hevery.
    + exact (IH next v s2 Hevery).
    + exact Hevery.
Qed.

(** X6.  Reading a path in two parts: when the first part leads to a truthy
    value [v], reading the whole path from [obj] is reading the second part
    from [v]; when it leads to a falsy value, the whole path gives the
    default.  So [get(config, 'versioning', false)] on the configuration
    found under ['custom.deploymentBucket'] is
    [get(service, 'custom.deploymentBucket.versioning', false)]. *)
Theorem get_composes obj p q v defaultValue :
  get obj p VUndefined = ok v ->
  (truthy v = true -> get obj (p ++ "." ++ q) defaultValue = get v q defaultValue)
  /\ (truthy v = false ->
      path_steps p <> [] ->
      get obj (p ++ "." ++ q) defaultValue = ok defaultValue).
Proof.
  intros Hget. unfold get in *. rewrite path_steps_app.
  destruct (every obj (path_steps p)) as [e|[[] last]] eqn:Hevery;
    cbn [rbind ok fst snd] in Hget; inversion Hget; subst.
  - split.
    + intros _. rewrite (every_app _ _ _ (path_steps q) Hevery). reflexivity.
    + intros Hfalsy Hsteps.
      rewrite (every_true_truthy _ _ _ Hsteps (path_steps_truthy p) Hevery) in Hfalsy.
      discriminate.
  - split; [discriminate|].
    intros _ _. rewrite (every_app_false _ _ _ (path_steps q) Hevery). reflexivity.
Qed.

End Paths.

(* ===================================================================== *)
(** ** What the constructor leaves in [config] *)
(* ===================================================================== *)

Section Defaults.
Context {RT : Runtime}.

(** Reading back a property assigned under a name that is neither an array
    index nor ["length"]. *)
Lemma prop_set_prop obj k v obj' :
  set_prop obj k v = ok obj' ->
  array_index k = None -> (k =? "length") = false ->
  prop obj' k = v.
Proof.
  intros Hset Hindex Hlength. unfold prop.
  destruct obj; simpl in Hset; try discriminate Hset; inversion Hset; subst; simpl.
  - rewrite own_put_own. reflexivity.
  - unfold array_own. rewrite Hindex, Hlength, own_put_own. reflexivity.
  - rewrite own_put_own. reflexivity.
Qed.

(** X7.  When the hook is registered, the constructor has normalised the
    desired state: [config.versioning] and [config.accelerate] are each a
    truthy value or the boolean [false], [config.policy] is a truthy value
    or [undefined], and the hook is the only one.  A flag written as [0],
    [null] or the empty string, or left out, reaches the reconciler as
    [false]. *)
Theorem constructor_normalises_flags serverless p :
  constructor serverless = inr p ->
  registered (inr p) = true ->
  (truthy (desired_versioning p) = true \/ desired_versioning p = VBool false)
  /\ (truthy (desired_acceleration p) = true \/ desired_acceleration p = VBool false)
  /\ (truthy (desired_policy p) = true \/ desired_policy p = VUndefined)
  /\ hooks p = [(hook_name, ApplyDeploymentBucket)].
Proof.
  unfold constructor. intros H.
  repeat match type of H with
    | context [rbind ?r _] =>
        match r with
        | context [rbind] => fail 1
        | _ => destruct r as [?e|?x] eqn:?; simpl rbind in H; [discriminate H|]
        end
    | context [if ?b then _ else _] =>
        match b with
        | context [rbind] => fail 1
        | _ => destruct b eqn:?
        end
    end.
  all: inversion H; subst; clear H; unfold registered; simpl; intros Hreg;
    try discriminate Hreg.
  unfold desired_versioning, desired_acceleration, desired_policy. simpl config.
  repeat match goal with
    | Hget : get ?o ?k ?d = inr ?v, Hset : set_prop ?o ?k ?v = inr ?o' |- _ =>
        assert (truthy v = true \/ v = d)
          by exact (get_truthy_or_default _ k _ _ ltac:(discriminate) Hget);
        assert (prop o' k = v)
          by exact (prop_set_prop o k v o' Hset eq_refl eq_refl);
        clear Hget
    end.
  repeat match goal with
    | Hset : set_prop ?o ?k ?v = inr ?o' |- context [prop ?o' ?k'] =>
        rewrite (set_prop_keeps o k v o' k' Hset) by discriminate
    end.
  repeat match goal with
    | H : prop _ _ = _ |- _ => rewrite H
    end.
  repeat split; assumption.
Qed.

(** X8.  The file is in strict mode: when [custom.deploymentBucket] is a
    primitive (the name of the bucket, say, instead of an object), the
    bucket has a name and the plugin is not disabled, the assignment of
    line 29 throws a TypeError and the constructor does not complete. *)
Theorem primitive_config_makes_constructor_throw
  version service processedInput bucket settings :
  get service (config_path version) (VObj []) = ok bucket ->
  get service "custom.deploymentBucket" (VObj []) = ok settings ->
  primitive settings = true ->
  strict_eq_prim (prop settings "enabled") (VBool false) = false ->
  truthy (prop bucket "name") = true ->
  exists m, constructor (host_of version service processedInput) = throw (TypeError m).
Proof.
  intros Hbucket Hsettings Hprim Henabled Hname.
  assert (Hobj : nullish settings = false) by (destruct settings; try discriminate; reflexivity).
  assert (Hb : nullish bucket = false).
  { destruct (nullish bucket) eqn:Hn; [|reflexivity].
    rewrite (prop_nullish _ "name" Hn) in Hname. discriminate. }
  destruct (get_total settings "versioning" (VBool false) Hobj) as [versioning Hv].
  unfold constructor, host_of. cbn [get_prop own own_or_inherited String.eqb Ascii.eqb Bool.eqb rbind ok].
  fold (config_path version).
  rewrite Hbucket, Hsettings. cbn [rbind ok].
  rewrite (get_prop_ok _ "enabled" Hobj). cbn [rbind ok].
  rewrite enabled_test, Henabled.
  rewrite (get_prop_ok _ "name" Hb). cbn [rbind ok]. rewrite Hname.
  rewrite Hv. cbn [rbind ok].
  destruct settings; try discriminate Hprim; cbn; eauto.
Qed.





End Defaults.

(* ===================================================================== *)
(** ** Runs on the in-memory provider *)
(* ===================================================================== *)

(** The in-memory provider without denied operations keeps what it is
    given. *)
Lemma mem_s3_faithful name : @faithful bucket (mem_s3 []) name.
Proof.
  assert (Hv : forall status,
             param_status (versioning_params name status) "VersioningConfiguration"
             = Some (if truthy status then "Enabled" else "Suspended")).
  { intros status. unfold param_status, versioning_params, status_of, prop. cbn.
    reflexivity. }
  assert (Ha : forall status,
             param_status (acceleration_params name status) "AccelerateConfiguration"
             = Some (if truthy status then "Enabled" else "Suspended")).
  { intros status. unfold param_status, acceleration_params, status_of, prop. cbn.
    reflexivity. }
  constructor.
  - intros status [pr en vs ac po] r w1 H.
    unfold versioning_observed. simpl in *. unfold mem_request in *. simpl in *.
    destruct pr; simpl in *; [|discriminate H].
    inversion H; subst; clear H. simpl.
    rewrite (Hv status).
    destruct (truthy status); reflexivity.
  - intros service operation params [pr en vs ac po] Hop.
    unfold versioning_observed. simpl. unfold mem_request. simpl.
    repeat match goal with
      | |- context [operation =? ?s] =>
          let E := fresh "E" in
          destruct (operation =? s) eqn:E;
          [apply String.eqb_eq in E; try (exfalso; exact (Hop E)); subst operation|];
          simpl
      end.
    all: destruct pr; simpl; try reflexivity.
    all: destruct en; reflexivity.
  - intros state params [pr en vs ac po]. unfold versioning_observed. simpl.
    unfold mem_waitFor, mem_request. simpl. destruct pr; reflexivity.
  - intros status [pr en vs ac po] r w1 H.
    unfold acceleration_observed. simpl in *. unfold mem_request in *. simpl in *.
    destruct pr; simpl in *; [|discriminate H].
    inversion H; subst; clear H. simpl.
    rewrite (Ha status).
    destruct (truthy status); reflexivity.
  - intros service operation params [pr en vs ac po] Hop.
    unfold acceleration_observed. simpl. unfold mem_request. simpl.
    repeat match goal with
      | |- context [operation =? ?s] =>
          let E := fresh "E" in
          destruct (operation =? s) eqn:E;
          [apply String.eqb_eq in E; try (exfalso; exact (Hop E)); subst operation|];
          simpl
      end.
    all: destruct pr; simpl; try reflexivity.
    all: destruct en; reflexivity.
  - intros state params [pr en vs ac po]. unfold acceleration_observed. simpl.
    unfold mem_waitFor, mem_request. simpl. destruct pr; reflexivity.
Qed.

(* ===================================================================== *)
(** ** Concrete runs *)
(* ===================================================================== *)

(** The first scenario of the specification: the bucket exists with
    versioning suspended; one [putBucketVersioning], no acceleration call
    beyond its probe, no [createBucket]. *)
Example scenario_existing_bucket_suspended :
  let t := trace_of (applyDeploymentBucket (P := mem_s3 []) b1 suspended_bucket) in
  count (is_request "putBucketVersioning") t = 1
  /\ count (is_request "putBucketAccelerateConfiguration") t = 0
  /\ count (is_request "createBucket") t = 0.
Proof. vm_compute. repeat split. Qed.

(** The second scenario: the bucket is absent and nothing else is asked
    for; [createBucket], the wait, and no mutation after them. *)
Example scenario_absent_bucket_defaults :
  let t := trace_of (applyDeploymentBucket (P := mem_s3 []) b2 no_bucket) in
  map op_name (calls t)
  = ["headBucket"; "createBucket"; "waitFor"; "getBucketVersioning";
     "getBucketAccelerateConfiguration"].
Proof. reflexivity. Qed.

(** C1 fails as stated: the credentials allow putting the versioning status
    but not reading it.  The run prints no error block, the reader still
    answers [false] for the desired [true], and the next run puts the
    status again. *)
Lemma versioning_unreadable_never_settles :
  let P := mem_s3 ["getBucketVersioning"] in
  let run := applyDeploymentBucket (P := P) b1 suspended_bucket in
  let again := applyDeploymentBucket (P := P) b1 (world_of run) in
  desired_versioning b1 = VBool true
  /\ console_errors (trace_of run) = []
  /\ result_of (hasBucketVersioning (P := P) (bucket_name b1) (world_of run)) = inr false
  /\ count (is_request "putBucketVersioning") (trace_of again) = 1.
Proof. vm_compute. repeat split. Qed.

Lemma versioning_and_acceleration_converge_witness :
  let run := applyDeploymentBucket (P := mem_s3 []) b1 suspended_bucket in
  let again := applyDeploymentBucket (P := mem_s3 []) b1 (world_of run) in
  desired_versioning b1 = VBool true
  /\ desired_acceleration b1 = VBool false
  /\ @faithful bucket (mem_s3 []) (bucket_name b1)
  /\ console_errors (trace_of run) = []
  /\ result_of (hasBucketVersioning (P := mem_s3 []) (bucket_name b1) (world_of run))
     = inr true
  /\ result_of (hasBucketAcceleration (P := mem_s3 []) (bucket_name b1) (world_of run))
     = inr false
  /\ count (is_request "putBucketVersioning") (trace_of again) = 0
  /\ count (is_request "putBucketAccelerateConfiguration") (trace_of again) = 0.
Proof.
  cbv zeta.
  split; [reflexivity|]. split; [reflexivity|].
  split; [apply mem_s3_faithful|]. split; [reflexivity|].
  apply (versioning_and_acceleration_converge
           (P := mem_s3 []) b1 true false suspended_bucket eq_refl eq_refl).
  - apply mem_s3_faithful.
  - reflexivity.
Defined.

(** C2 fails as stated: the bucket is absent and the credentials do not
    allow creating it.  The probe is rejected, [createBucket] is called
    once, and no wait follows. *)
Lemma create_rejected_is_not_awaited :
  let t := trace_of (applyDeploymentBucket (P := mem_s3 ["createBucket"]) b1 no_bucket) in
  existsb (rejected_request "headBucket") (calls t) = true
  /\ count (is_request "createBucket") t = 1
  /\ count is_wait t = 0.
Proof. vm_compute. repeat split. Qed.

Lemma bucket_created_then_awaited_when_absent_witness :
  let t := trace_of (applyDeploymentBucket (P := mem_s3 []) b2 no_bucket) in
  exists out rest',
    tl (calls t) = Request "S3" "createBucket" (create_params (bucket_name b2)) out :: rest'
    /\ match out with
       | inl _ => rest' = []
       | inr _ =>
           exists waited rest'',
             rest' = WaitFor "bucketExists" (bucket_params (bucket_name b2)) waited
                     :: rest''
             /\ forallb (one_of facet_ops) rest'' = true
       end.
Proof.
  cbv zeta.
  apply (proj1 (proj2 (proj2
           (bucket_created_then_awaited_when_absent (P := mem_s3 []) b2 no_bucket)))
           (Error "NotFound")).
  reflexivity.
Defined.

(** C5 fails as stated: a policy is set, but [createBucket] is rejected and
    the run ends before the policy statement. *)
Lemma policy_not_applied_after_rejected_create :
  let t := trace_of (applyDeploymentBucket (P := mem_s3 ["createBucket"]) b3 no_bucket) in
  truthy (desired_policy b3) = true
  /\ count (is_request "putBucketPolicy") t = 0.
Proof. vm_compute. repeat split. Qed.

Lemma policy_applied_once_when_reached_witness :
  count (is_request "putBucketPolicy")
    (trace_of (applyDeploymentBucket (P := mem_s3 []) b3 no_bucket)) = 1.
Proof.
  exact (proj1 (policy_applied_once_when_reached (P := mem_s3 []) b3 no_bucket)).
Defined.

Lemma wait_failure_is_logged_and_run_continues_witness :
  let t := trace_of (applyDeploymentBucket (P := mem_s3 ["waitFor"]) b1 no_bucket) in
  exists op out rest,
    skipn 4 t
    = Log (wait_failure_line "bucketExists" (Error "AccessDenied"))
      :: request_call op (bucket_params (bucket_name b1)) out :: rest
    /\ (op = "getBucketEncryption" \/ op = "getBucketVersioning").
Proof.
  cbv zeta.
  apply (proj2 (wait_failure_is_logged_and_run_continues
                  (P := mem_s3 ["waitFor"]) b1 (bucket_name b1) "bucketExists" no_bucket)
           (firstn 3 (trace_of
                        (applyDeploymentBucket (P := mem_s3 ["waitFor"]) b1 no_bucket)))
           "bucketExists" (bucket_params (bucket_name b1))).
  reflexivity.
Defined.

Lemma hook_registered_iff_enabled_named_and_not_packaging_witness :
  constructor deploy_host = inr b1
  /\ (registered (inr b1) = true
      <-> strict_eq_prim (prop (config b1) "enabled") (VBool false) = false
          /\ truthy (prop (deploymentBucket b1) "name") = true
          /\ exists commands,
               get deploy_host "processedInput.commands" (VArr [] []) = inr commands
               /\ includes commands "package" = inr false).
Proof.
  split; [reflexivity|].
  apply (hook_registered_iff_enabled_named_and_not_packaging deploy_host b1).
  reflexivity.
Defined.

Lemma get_defaults_on_any_falsy_step_witness :
  get (VObj [("versioning", VBool false)]) "versioning" (VBool true) = ok (VBool true)
  /\ get (VObj []) "versioning" (VBool true) = ok (VBool true).
Proof.
  destruct (proj2 (get_defaults_on_any_falsy_step (VObj []) "versioning" (VBool true))
              [] (VBool false) eq_refl (or_introl eq_refl)) as [Hset Habsent].
  split; [exact Hset | exact (Habsent eq_refl)].
Defined.

Lemma constructed_fields_can_be_read_witness :
  constructor deploy_host = inr b1
  /\ nullish (deploymentBucket b1) = false
  /\ nullish (config b1) = false.
Proof.
  split; [reflexivity|].
  exact (constructed_fields_can_be_read deploy_host b1 eq_refl).
Defined.

Lemma string_flag_puts_in_every_run_witness :
  let run := applyDeploymentBucket (P := mem_s3 []) b4 fresh_bucket in
  let again := applyDeploymentBucket (P := mem_s3 []) b4 (world_of run) in
  count (is_request "putBucketVersioning") (trace_of run) = 1
  /\ count (is_request "putBucketVersioning") (trace_of again) = 1.
Proof.
  cbv zeta. split.
  - rewrite (string_flag_puts_in_every_run (RT := sample_runtime) (P := mem_s3 [])
               b4 "yes" fresh_bucket eq_refl eq_refl).
    reflexivity.
  - rewrite (string_flag_puts_in_every_run (RT := sample_runtime) (P := mem_s3 [])
               b4 "yes" _ eq_refl eq_refl).
    reflexivity.
Defined.

(* ===================================================================== *)
(** ** Further runs on the sample runtime and the in-memory provider *)
(* ===================================================================== *)

(** The in-memory provider without denied operations keeps the encryption
    it is given. *)
Lemma mem_s3_keeps_encryption name : @keeps_encryption bucket (mem_s3 []) name.
Proof.
  constructor.
  - intros sse [pr en vs ac po] r w1 H.
    unfold encryption_observed. simpl in *. unfold mem_request in *. simpl in *.
    destruct pr; simpl in *; [|discriminate H].
    inversion H; subst; clear H. reflexivity.
  - intros operation params [pr en vs ac po] Hop Hwas.
    unfold encryption_observed in *. simpl in *. unfold mem_request in Hwas. simpl in Hwas.
    destruct pr, en; simpl in Hwas; try discriminate Hwas.
    repeat destruct Hop as [<-|Hop]; try contradiction; reflexivity.
  - intros state params [pr en vs ac po] Hwas.
    unfold encryption_observed in *. simpl in *. unfold mem_request in Hwas. simpl in Hwas.
    destruct pr, en; simpl in Hwas; try discriminate Hwas. reflexivity.
Qed.

(** It keeps the bucket it is given, too. *)
Lemma mem_s3_keeps_bucket name : @keeps_bucket bucket (mem_s3 []) name.
Proof.
  constructor.
  - intros [pr en vs ac po] r w1 H.
    unfold bucket_observed. simpl in *. unfold mem_request in *. simpl in *.
    destruct pr; simpl in *; [discriminate H|].
    inversion H; subst; clear H. reflexivity.
  - intros operation params [pr en vs ac po] Hop Hwas.
    unfold bucket_observed in *. simpl in *. unfold mem_request in Hwas. simpl in Hwas.
    destruct pr; simpl in Hwas; try discriminate Hwas.
    repeat destruct Hop as [<-|Hop]; try contradiction; try reflexivity.
    all: destruct en; reflexivity.
  - intros state params [pr en vs ac po] Hwas.
    unfold bucket_observed in *. simpl in *. unfold mem_request in Hwas. simpl in Hwas.
    destruct pr; simpl in Hwas; try discriminate Hwas. reflexivity.
Qed.

Lemma get_answers_value_reached_witness :
  get deploy_host "service.custom.deploymentBucket.versioning" (VBool false)
  = ok (VBool true).
Proof.
  rewrite (proj1 (get_answers_value_reached deploy_host
                    "service.custom.deploymentBucket.versioning" (VBool false))).
  - reflexivity.
  - intros before step after v Hpath Hfollow. vm_compute in Hpath.
    do 4 (destruct before as [|? before];
          [inversion Hpath; subst; vm_compute in Hfollow; inversion Hfollow; reflexivity|]).
    destruct before; inversion Hpath.
Defined.

Lemma get_composes_witness :
  get (VObj [("custom", VObj [("deploymentBucket", VObj [("versioning", VBool true)])])])
    "custom.deploymentBucket.versioning" (VBool false)
  = get (VObj [("versioning", VBool true)]) "versioning" (VBool false).
Proof.
  exact (proj1 (get_composes
                  (VObj [("custom",
                          VObj [("deploymentBucket", VObj [("versioning", VBool true)])])])
                  "custom.deploymentBucket" "versioning"
                  (VObj [("versioning", VBool true)]) (VBool false) eq_refl)
           eq_refl).
Defined.

Lemma constructor_normalises_flags_witness :
  desired_versioning b1 = VBool true
  /\ desired_acceleration b1 = VBool false
  /\ desired_policy b1 = VUndefined
  /\ ((truthy (desired_versioning b1) = true \/ desired_versioning b1 = VBool false)
      /\ (truthy (desired_acceleration b1) = true \/ desired_acceleration b1 = VBool false)
      /\ (truthy (desired_policy b1) = true \/ desired_policy b1 = VUndefined)
      /\ hooks b1 = [(hook_name, ApplyDeploymentBucket)]).
Proof.
  repeat (split; [reflexivity|]).
  exact (constructor_normalises_flags deploy_host b1 eq_refl eq_refl).
Defined.

Lemma primitive_config_makes_constructor_throw_witness :
  exists m,
    constructor (host_of (VStr "3.38.0") misconfigured_service (VObj []))
    = throw (TypeError m).
Proof.
  exact (primitive_config_makes_constructor_throw
           (VStr "3.38.0") misconfigured_service (VObj [])
           (VObj [("name", VStr "b1")]) (VStr "b1")
           eq_refl eq_refl eq_refl eq_refl eq_refl).
Defined.

Lemma encryption_is_applied_once_witness :
  let run := applyDeploymentBucket (P := mem_s3 []) b5 no_bucket in
  let again := applyDeploymentBucket (P := mem_s3 []) b5 (world_of run) in
  count (is_request "putBucketEncryption") (trace_of run) = 1
  /\ result_of (hasBucketEncryption (P := mem_s3 []) (bucket_name b5) (world_of run))
     = inr true
  /\ count (is_request "putBucketEncryption") (trace_of again) = 0.
Proof.
  cbv zeta. split; [reflexivity|].
  exact (encryption_is_applied_once (P := mem_s3 []) b5 no_bucket eq_refl
           (mem_s3_keeps_encryption (bucket_name b5)) eq_refl).
Defined.


Lemma settled_bucket_is_only_probed_witness :
  let t := trace_of (applyDeploymentBucket (P := mem_s3 []) b1 enabled_bucket) in
  existsb (one_of mutation_ops) (calls t) = false
  /\ console_errors t = [].
Proof.
  apply (settled_bucket_is_only_probed (P := mem_s3 []) b1 enabled_bucket eq_refl eq_refl
           (mem_s3_faithful (bucket_name b1)) (mem_s3_keeps_encryption (bucket_name b1))).
  repeat split; try reflexivity. intros H. discriminate H.
Defined.

Lemma successful_run_settles_the_bucket_witness :
  let run := applyDeploymentBucket (P := mem_s3 []) b1 no_bucket in
  let again := applyDeploymentBucket (P := mem_s3 []) b1 (world_of run) in
  console_errors (trace_of run) = []
  /\ settled (P := mem_s3 []) b1 (world_of run)
  /\ existsb (one_of provisioning_ops) (calls (trace_of again)) = false.
Proof.
  cbv zeta. split; [reflexivity|].
  exact (successful_run_settles_the_bucket (P := mem_s3 []) b1 true false no_bucket
           eq_refl eq_refl (mem_s3_faithful (bucket_name b1))
           (mem_s3_keeps_encryption (bucket_name b1)) (mem_s3_keeps_bucket (bucket_name b1))
           eq_refl).
Defined.

